(** * CursorSoftphone closed captioning: the caption worklet and its controller

    A shallow embedding of the two JavaScript units of the repository:

    - [CaptionProcessor] (the AudioWorkletProcessor registered under the
      name 'caption-processor'): a voice-activity detector with a hangover
      counter and a fixed-size accumulation buffer;
    - [ClosedCaptioning] (captions.js): the controller that owns the two
      speech-recognition sessions and the bounded caption history.

    JavaScript numbers are IEEE 754 binary64 values.  Audio samples and the
    audio level are kept as Rocq's primitive binary64 floats, so the level
    computation rounds exactly as the engine does.  Counters that only ever
    hold small integers are kept as [Z] or [nat].

    The controller calls into the browser (speech recognition, Web Audio,
    the page).  The page is a finite map from element ids to the one
    element the controller cares about; the calls that can throw go
    through a host that decides, call by call, whether they do, and every
    attempted call is recorded.  Code that can throw lives in a small
    state-and-exception monad. *)

From Stdlib Require Import ZArith Lia PrimFloat Uint63 String Ascii.
From stdpp Require Import base option list strings gmap.

Local Open Scope Z_scope.

(* Decimal literals such as 0.01 denote the nearest binary64 value, as in
   JavaScript. *)
Set Warnings "-inexact-float".

(* ===================================================================== *)
(** ** The audio worklet processor                                        *)
(* ===================================================================== *)

Module CaptionProcessor.

(** One channel of one render quantum: the Float32Array [inputs[0][0]].
    Its elements are binary32 values; each of them is exactly a binary64
    value, and storing it into another Float32Array keeps it as it is. *)
Definition Block := list float.

(** What the audio host hands to one [process] call: the first channel of
    the first input, [None] when [inputs[0]?.[0]] is undefined, and the
    global [currentTime] of the worklet scope. *)
Record Quantum := mkQuantum {
  inputs : option Block;
  currentTime : float
}.

(** The objects given to [port.postMessage]. *)
Inductive Message :=
| Initialized                                   (* status: "initialized" *)
| SpeechStart (level : float)                   (* status: "speech_start" *)
| SpeechEnd (level : float)                     (* status: "speech_end" *)
| ProcessAudio (audioBuffer : list float) (timestamp : float).

(** The fields of a [CaptionProcessor] instance. *)
Record Processor := mkProcessor {
  bufferSize : nat;
  buffer : list float;
  bufferIndex : nat;
  silenceThreshold : float;
  silenceFrames : Z;
  maxSilenceFrames : Z;
  isActive : bool
}.

Definition setBuffer (b : list float) (p : Processor) : Processor :=
  mkProcessor (bufferSize p) b (bufferIndex p) (silenceThreshold p)
              (silenceFrames p) (maxSilenceFrames p) (isActive p).

Definition setBufferIndex (i : nat) (p : Processor) : Processor :=
  mkProcessor (bufferSize p) (buffer p) i (silenceThreshold p)
              (silenceFrames p) (maxSilenceFrames p) (isActive p).

Definition setSilenceFrames (n : Z) (p : Processor) : Processor :=
  mkProcessor (bufferSize p) (buffer p) (bufferIndex p) (silenceThreshold p)
              n (maxSilenceFrames p) (isActive p).

Definition setIsActive (a : bool) (p : Processor) : Processor :=
  mkProcessor (bufferSize p) (buffer p) (bufferIndex p) (silenceThreshold p)
              (silenceFrames p) (maxSilenceFrames p) a.

(** [constructor()]: the configuration, the zero-filled Float32Array and the
    message posted by [init()]. *)
Definition constructor : Processor * list Message :=
  (mkProcessor 4096 (replicate 4096 0%float) 0 0.01%float 0 30 false,
   [Initialized]).

(** [x++] on a number holding a non-negative integer: exact below 2^53,
    and 2^53 + 1 rounds back to 2^53. *)
Definition incr (n : Z) : Z :=
  if n <? 2 ^ 53 then n + 1 else n.

(** [input.length] as a number. *)
Definition lengthNumber (input : Block) : float :=
  of_uint63 (Uint63.of_Z (Z.of_nat (length input))).

(** Lines 54-58: the mean absolute amplitude, accumulated left to right. *)
Definition audioLevel (input : Block) : float :=
  (fold_left (fun acc x => acc + abs x) input 0 / lengthNumber input)%float.

(** Lines 61-81: speech against silence.  A NaN level compares false and
    so counts as silence. *)
Definition detect (level : float) (p : Processor) : Processor * list Message :=
  if PrimFloat.ltb (silenceThreshold p) level then
    let p1 := setSilenceFrames 0 p in
    if negb (isActive p1) then (setIsActive true p1, [SpeechStart level])
    else (p1, [])
  else
    let p1 := setSilenceFrames (incr (silenceFrames p)) p in
    if isActive p1 && (maxSilenceFrames p1 <? silenceFrames p1) then
      (setIsActive false p1, [SpeechEnd level])
    else (p1, []).

(** [processBuffer()]: [buffer.slice(0)] is a copy of the whole window. *)
Definition processBuffer (now : float) (p : Processor) : list Message :=
  if isActive p then [ProcessAudio (buffer p) now] else [].

(** One turn of the loop of lines 84-92.  A typed array ignores a store
    past its end, as the list insert does. *)
Definition pushSample (now : float) (acc : Processor * list Message) (x : float)
  : Processor * list Message :=
  let p1 := setBuffer (<[bufferIndex acc.1 := x]> (buffer acc.1)) acc.1 in
  let p2 := setBufferIndex (S (bufferIndex p1)) p1 in
  if (bufferSize p2 <=? bufferIndex p2)%nat then
    (setBufferIndex 0 p2, acc.2 ++ processBuffer now p2)
  else (p2, acc.2).

(** [process(inputs, outputs)].  The pass-through copy into [outputs] does
    not touch the processor, and the returned value is always [true]; both
    are left out.  The result is the processor afterwards and the messages
    posted during the call, in order. *)
Definition process (q : Quantum) (p : Processor) : Processor * list Message :=
  match inputs q with
  | None => (p, [])
  | Some [] => (p, [])
  | Some input =>
      fold_left (pushSample (currentTime q)) input (detect (audioLevel input) p)
  end.

(** The processor fed a sequence of render quanta. *)
Definition feed (acc : Processor * list Message) (q : Quantum)
  : Processor * list Message :=
  let r := process q acc.1 in (r.1, acc.2 ++ r.2).

Definition run (qs : list Quantum) : Processor * list Message :=
  fold_left feed qs constructor.

(** A block is loud when it has samples and its level is strictly above the
    threshold, quiet when it has samples and its level is not. *)
Definition isLoud (threshold : float) (q : Quantum) : bool :=
  match inputs q with
  | None => false
  | Some [] => false
  | Some input => PrimFloat.ltb threshold (audioLevel input)
  end.

Definition isQuiet (threshold : float) (q : Quantum) : bool :=
  match inputs q with
  | None => false
  | Some [] => false
  | Some input => negb (PrimFloat.ltb threshold (audioLevel input))
  end.

(** The [k]-th full window of a sample stream. *)
Definition window (n : nat) (stream : list float) (k : nat) : list float :=
  take n (drop (k * n) stream).

(** The shape the accumulation window keeps: as long as the configured
    size, with the write index strictly inside it. *)
Definition windowOk (p : Processor) : Prop :=
  length (buffer p) = bufferSize p ∧ (bufferIndex p < bufferSize p)%nat.

(** Lines 43-51: the pass-through.  [output[i] = input[i]] for every index
    of the input; an output channel is a Float32Array of its own length, and
    a store past its end is ignored. *)
Definition copyChannel (input output : Block) : Block :=
  fold_left (λ out i, match input !! i with
                      | Some x => <[i := x]> out
                      | None => out
                      end)
            (seq 0 (length input)) output.

(** What a [process] call leaves in [outputs]: nothing is written when the
    call returns early for want of input; otherwise every channel of the
    first output gets the input and the other outputs are not touched. *)
Definition passThrough (q : Quantum) (outputs : list (list Block)) : list (list Block) :=
  match inputs q with
  | None => outputs
  | Some [] => outputs
  | Some input =>
      match outputs with
      | [] => []
      | channels :: rest =>
          (if (0 <? length channels)%nat then map (copyChannel input) channels
           else channels) :: rest
      end
  end.

(** Whether a call comes with samples. *)
Definition hasSamples (q : Quantum) : bool :=
  match inputs q with
  | None => false
  | Some [] => false
  | Some _ => true
  end.

(** The number of samples a sequence of calls brings. *)
Definition sampleCount (q : Quantum) : nat :=
  match inputs q with
  | None => 0
  | Some input => length input
  end.

Definition totalSamples (qs : list Quantum) : nat :=
  foldr (λ q n, sampleCount q + n)%nat 0%nat qs.

(** The speech signals among posted messages, in order: [true] for
    'speech_start', [false] for 'speech_end'. *)
Definition speechSignals (msgs : list Message) : list bool :=
  omap (λ m, match m with
             | SpeechStart _ => Some true
             | SpeechEnd _ => Some false
             | _ => None
             end) msgs.

(** The buffers of the 'processAudio' messages among posted messages. *)
Definition audioBuffers (msgs : list Message) : list (list float) :=
  omap (λ m, match m with
             | ProcessAudio b _ => Some b
             | _ => None
             end) msgs.

(** A list of signals that starts with [next] and changes at every step. *)
Fixpoint alternates (next : bool) (l : list bool) : bool :=
  match l with
  | [] => true
  | b :: l' => Bool.eqb b next && alternates (negb next) l'
  end.

(** The level a speech signal reports is on the right side of the
    threshold. *)
Definition levelFits (threshold : float) (m : Message) : bool :=
  match m with
  | SpeechStart level => PrimFloat.ltb threshold level
  | SpeechEnd level => negb (PrimFloat.ltb threshold level)
  | _ => true
  end.

End CaptionProcessor.

(* ===================================================================== *)
(** ** The caption controller (captions.js)                               *)
(* ===================================================================== *)

Module ClosedCaptioning.

(** *** Strings *)

(** A JavaScript string is a sequence of UTF-16 code units. *)
Definition jsstring := list N.

(** An ASCII literal as a JavaScript string. *)
Definition lit (s : string) : jsstring :=
  map N_of_ascii (list_ascii_of_string s).

(** The code units [String.prototype.trim] strips: ECMAScript's WhiteSpace
    (TAB, VT, FF, ZWNBSP and the space separators) and LineTerminator
    (LF, CR, LS, PS). *)
Definition isWhiteSpace (c : N) : bool :=
  ((c =? 9) || (c =? 10) || (c =? 11) || (c =? 12) || (c =? 13)
   || (c =? 32) || (c =? 160) || (c =? 5760)
   || ((8192 <=? c) && (c <=? 8202))
   || (c =? 8232) || (c =? 8233) || (c =? 8239) || (c =? 8287)
   || (c =? 12288) || (c =? 65279))%N.

Fixpoint trimStart (s : jsstring) : jsstring :=
  match s with
  | [] => []
  | c :: s' => if isWhiteSpace c then trimStart s' else s
  end.

Definition trimEnd (s : jsstring) : jsstring :=
  reverse (trimStart (reverse s)).

Definition trim (s : jsstring) : jsstring := trimEnd (trimStart s).

(** [parts.join(' ')]. *)
Fixpoint join (parts : list jsstring) : jsstring :=
  match parts with
  | [] => []
  | [s] => s
  | s :: rest => s ++ 32%N :: join rest
  end.

(** *** The data model *)

Inductive Speaker := local | remote.

Global Instance Speaker_eq_dec : EqDecision Speaker.
Proof. solve_decision. Defined.

(** An entry of [captionHistory]. *)
Record Caption := mkCaption {
  speaker : Speaker;
  text : jsstring
}.

(** [this.options], after the caller's options are spread over the
    defaults. *)
Record Options := mkOptions {
  captionContainerId : string;
  captionContainerClass : string;
  maxHistoryLength : Z;
  speakerColors : Speaker → string;
  showSpeakerLabels : bool
}.

Definition defaultOptions : Options :=
  mkOptions "captions" "caption-container" 5
            (λ s, match s with local => "#1a73e8" | remote => "#34a853" end)
            true.

Definition withMaxHistoryLength (n : Z) (o : Options) : Options :=
  mkOptions (captionContainerId o) (captionContainerClass o) n
            (speakerColors o) (showSpeakerLabels o).

(** A MediaStream handle; a missing stream is [None]. *)
Definition MediaStream := nat.

(** The fields of a [ClosedCaptioning] instance.  The objects held in
    [audioContext], [captionProcessor], the two recognition sessions and
    [remoteAudioElement] are opaque here: a field is [true] once the object
    is stored in it and [false] while it is [null]. *)
Record Controller := mkController {
  options : Options;
  isActive : bool;
  audioContext : bool;
  captionProcessor : bool;
  speechRecognition : bool;
  remoteSpeechRecognition : bool;
  captionHistory : list Caption;
  currentSpeaker : option Speaker;
  localStream : option MediaStream;
  remoteStream : option MediaStream;
  audioWorkletSupported : bool;
  remoteAudioElement : bool
}.

Definition setIsActive (b : bool) (c : Controller) : Controller :=
  mkController (options c) b (audioContext c) (captionProcessor c)
    (speechRecognition c) (remoteSpeechRecognition c) (captionHistory c)
    (currentSpeaker c) (localStream c) (remoteStream c)
    (audioWorkletSupported c) (remoteAudioElement c).

Definition setAudioContext (b : bool) (c : Controller) : Controller :=
  mkController (options c) (isActive c) b (captionProcessor c)
    (speechRecognition c) (remoteSpeechRecognition c) (captionHistory c)
    (currentSpeaker c) (localStream c) (remoteStream c)
    (audioWorkletSupported c) (remoteAudioElement c).

Definition setCaptionProcessor (b : bool) (c : Controller) : Controller :=
  mkController (options c) (isActive c) (audioContext c) b
    (speechRecognition c) (remoteSpeechRecognition c) (captionHistory c)
    (currentSpeaker c) (localStream c) (remoteStream c)
    (audioWorkletSupported c) (remoteAudioElement c).

Definition setRecognition (who : Speaker) (b : bool) (c : Controller) : Controller :=
  match who with
  | local =>
      mkController (options c) (isActive c) (audioContext c) (captionProcessor c)
        b (remoteSpeechRecognition c) (captionHistory c)
        (currentSpeaker c) (localStream c) (remoteStream c)
        (audioWorkletSupported c) (remoteAudioElement c)
  | remote =>
      mkController (options c) (isActive c) (audioContext c) (captionProcessor c)
        (speechRecognition c) b (captionHistory c)
        (currentSpeaker c) (localStream c) (remoteStream c)
        (audioWorkletSupported c) (remoteAudioElement c)
  end.

Definition setCaptionHistory (h : list Caption) (c : Controller) : Controller :=
  mkController (options c) (isActive c) (audioContext c) (captionProcessor c)
    (speechRecognition c) (remoteSpeechRecognition c) h
    (currentSpeaker c) (localStream c) (remoteStream c)
    (audioWorkletSupported c) (remoteAudioElement c).

Definition setCurrentSpeaker (s : option Speaker) (c : Controller) : Controller :=
  mkController (options c) (isActive c) (audioContext c) (captionProcessor c)
    (speechRecognition c) (remoteSpeechRecognition c) (captionHistory c)
    s (localStream c) (remoteStream c)
    (audioWorkletSupported c) (remoteAudioElement c).

Definition setStreams (l r : option MediaStream) (c : Controller) : Controller :=
  mkController (options c) (isActive c) (audioContext c) (captionProcessor c)
    (speechRecognition c) (remoteSpeechRecognition c) (captionHistory c)
    (currentSpeaker c) l r
    (audioWorkletSupported c) (remoteAudioElement c).

Definition setRemoteAudioElement (b : bool) (c : Controller) : Controller :=
  mkController (options c) (isActive c) (audioContext c) (captionProcessor c)
    (speechRecognition c) (remoteSpeechRecognition c) (captionHistory c)
    (currentSpeaker c) (localStream c) (remoteStream c)
    (audioWorkletSupported c) b.

(** The recognition session of a party. *)
Definition recognition (who : Speaker) (c : Controller) : bool :=
  match who with
  | local => speechRecognition c
  | remote => remoteSpeechRecognition c
  end.

(** *** The page *)

(** One rendered line: the div 'caption-entry <speaker>', the optional
    label span (its text and colour) and the text span. *)
Record CaptionElement := mkCaptionElement {
  entryClass : Speaker;
  speakerLabel : option (string * string);
  textContent : jsstring
}.

(** The element with the container's id: its class, whether the class
    list holds 'hidden', and the children of its '.captions' descendant
    when it has one. *)
Record Container := mkContainer {
  className : string;
  hidden : bool;
  captions : option (list CaptionElement)
}.

Definition setHidden (b : bool) (c : Container) : Container :=
  mkContainer (className c) b (captions c).

Definition setCaptions (l : list CaptionElement) (c : Container) : Container :=
  mkContainer (className c) (hidden c) (Some l).

(** The elements of the page by id. *)
Abbreviation Document := (gmap string Container).

(** *** The host *)

(** The calls into the browser that can throw. *)
Inductive HostCall :=
| RecognitionNew (who : Speaker)        (* new SpeechRecognition() *)
| RecognitionStart (who : Speaker)      (* session.start() *)
| RecognitionStop (who : Speaker)       (* session.stop() *)
| AudioContextNew                       (* new AudioContext() *)
| AudioContextClose                     (* audioContext.close() *)
| CreateMediaStreamSource
| CreateMediaStreamDestination
| Connect                               (* source.connect(...) *)
| AudioElementAppend                    (* document.body.appendChild(audio) *)
| WorkletAddModule                      (* await audioWorklet.addModule(...) *)
| WorkletNodeNew.                       (* new AudioWorkletNode(...) *)

(** The browser as the controller meets it: which capabilities exist, and
    whether the [n]-th call of the run throws (or, for an awaited promise,
    rejects). *)
Record Host := mkHost {
  hasSpeechRecognition : bool;  (* window.SpeechRecognition || window.webkitSpeechRecognition *)
  hasAudioWorklet : bool;       (* 'audioWorklet' in AudioContext.prototype *)
  throws : nat → HostCall → bool
}.

Inductive LogEntry :=
| ConsoleLog (msg : string)
| ConsoleWarn (msg : string)
| ConsoleError (msg : string).

(** A callback handed to [setTimeout]: the delayed second start attempt
    of a restart. *)
Inductive Timer :=
| RetryStart (who : Speaker) (delay : Z).

(** The controller, the page and what the run has done so far: every host
    call attempted with whether it threw, the console, the pending timers. *)
Record World := mkWorld {
  this : Controller;
  document : Document;
  calls : list (HostCall * bool);
  console : list LogEntry;
  timers : list Timer
}.

Definition setThis (c : Controller) (w : World) : World :=
  mkWorld c (document w) (calls w) (console w) (timers w).

Definition setDocument (d : Document) (w : World) : World :=
  mkWorld (this w) d (calls w) (console w) (timers w).

Definition setCalls (cs : list (HostCall * bool)) (w : World) : World :=
  mkWorld (this w) (document w) cs (console w) (timers w).

Definition setConsole (l : list LogEntry) (w : World) : World :=
  mkWorld (this w) (document w) (calls w) l (timers w).

Definition setTimers (t : list Timer) (w : World) : World :=
  mkWorld (this w) (document w) (calls w) (console w) t.

(** *** Code that can throw *)

Inductive Exception :=
| HostError (c : HostCall)
| UserError (msg : string).

Inductive Completion (A : Type) :=
| Normal (a : A)
| Throw (e : Exception).
Arguments Normal {A} a.
Arguments Throw {A} e.

Definition M (A : Type) : Type := World → Completion A * World.

Global Instance M_ret : MRet M := λ A a w, (Normal a, w).

Global Instance M_bind : MBind M := λ A B f m w,
  match m w with
  | (Normal a, w') => f a w'
  | (Throw e, w') => (Throw e, w')
  end.

Definition throw {A} (e : Exception) : M A := λ w, (Throw e, w).

(** [try { body } catch (e) { handler }]. *)
Definition tryCatch {A} (body : M A) (handler : Exception → M A) : M A := λ w,
  match body w with
  | (Normal a, w') => (Normal a, w')
  | (Throw e, w') => handler e w'
  end.

(** A statement that cannot throw. *)
Definition modify (f : World → World) : M unit := λ w, (Normal (), f w).

Definition modifyThis (f : Controller → Controller) : M unit :=
  modify (λ w, setThis (f (this w)) w).

Definition log (e : LogEntry) : M unit :=
  modify (λ w, setConsole (console w ++ [e]) w).

(** [setTimeout(callback, delay)]. *)
Definition setTimeout (t : Timer) : M unit :=
  modify (λ w, setTimers (timers w ++ [t]) w).

Definition exec {A} (m : M A) (w : World) : World := (m w).2.

(** *** The page operations *)

Definition containerId (w : World) : string :=
  captionContainerId (options (this w)).

(** [document.querySelector(`#${id} .captions`)]. *)
Definition captionsElement (w : World) : option (list CaptionElement) :=
  document w !! containerId w ≫= captions.

(** [ensureCaptionContainer()]: a missing container is created, with its
    inner 'captions' element. *)
Definition ensureCaptionContainer (w : World) : World :=
  match document w !! containerId w with
  | Some _ => w
  | None =>
      setDocument
        (<[containerId w :=
             mkContainer (captionContainerClass (options (this w))) false (Some [])]>
           (document w)) w
  end.

Definition showCaptionContainer (w : World) : World :=
  setDocument (alter (setHidden false) (containerId w) (document w)) w.

Definition hideCaptionContainer (w : World) : World :=
  setDocument (alter (setHidden true) (containerId w) (document w)) w.

(** The element [renderCaptions] builds for one entry. *)
Definition renderCaption (o : Options) (c : Caption) : CaptionElement :=
  mkCaptionElement (speaker c)
    (if showSpeakerLabels o
     then Some (match speaker c with local => "You: " | remote => "Caller: " end,
                speakerColors o (speaker c))
     else None)
    (text c).

(** [renderCaptions()]: the captions element is emptied and refilled from
    the history.  The scroll position is not modelled. *)
Definition renderCaptions (w : World) : World :=
  match captionsElement w with
  | None => w
  | Some _ =>
      setDocument
        (alter (setCaptions (map (renderCaption (options (this w)))
                                 (captionHistory (this w))))
               (containerId w) (document w)) w
  end.

(** *** The transcript *)

Definition setText (t : jsstring) (c : Caption) : Caption :=
  mkCaption (speaker c) t.

(** [!text || text.trim() === ''] *)
Definition isBlank (t : jsstring) : bool :=
  match t with
  | [] => true
  | _ => match trim t with [] => true | _ => false end
  end.

(** Lines 347-369 of [updateCaption], on the controller alone. *)
Definition recordCaption (t : jsstring) (who : Speaker) (c : Controller) : Controller :=
  if decide (currentSpeaker c ≠ Some who) then
    let c1 := setCurrentSpeaker (Some who) c in
    let c2 := setCaptionHistory (captionHistory c1 ++ [mkCaption who (trim t)]) c1 in
    if maxHistoryLength (options c2) <? Z.of_nat (length (captionHistory c2)) then
      setCaptionHistory (drop 1 (captionHistory c2)) c2      (* shift() *)
    else c2
  else
    if (0 <? length (captionHistory c))%nat then
      setCaptionHistory
        (alter (setText (trim t)) (length (captionHistory c) - 1)%nat (captionHistory c)) c
    else
      setCaptionHistory (captionHistory c ++ [mkCaption who (trim t)]) c.

(** [updateCaption(text, speaker)]. *)
Definition updateCaption (t : jsstring) (who : Speaker) (w : World) : World :=
  if isBlank t then w
  else match captionsElement w with
       | None => w
       | Some _ => renderCaptions (setThis (recordCaption t who (this w)) w)
       end.

(** [updateSpeakerStatus(speaker)]. *)
Definition updateSpeakerStatus (who : Speaker) (w : World) : World :=
  if decide (currentSpeaker (this w) ≠ Some who)
  then setThis (setCurrentSpeaker (Some who) (this w)) w
  else w.

(** The [onresult] handler of a session: the first alternative of every
    result, joined by spaces, goes to [updateCaption] under the session's
    speaker. *)
Definition onresult (who : Speaker) (transcripts : list jsstring) (w : World) : World :=
  updateCaption (join transcripts) who w.

(** The handler of the worklet's messages (set in [setupAudioWorklet]). *)
Definition onmessage (m : CaptionProcessor.Message) (w : World) : World :=
  match m with
  | CaptionProcessor.SpeechStart _ => updateSpeakerStatus remote w
  | _ => w
  end.

(** The two calls that decide what the history holds. *)
Inductive TranscriptCall :=
| UpdateCaption (t : jsstring) (who : Speaker)
| UpdateSpeakerStatus (who : Speaker).

Definition applyCall (w : World) (e : TranscriptCall) : World :=
  match e with
  | UpdateCaption t who => updateCaption t who w
  | UpdateSpeakerStatus who => updateSpeakerStatus who w
  end.

Definition applyCalls (l : list TranscriptCall) (w : World) : World :=
  fold_left applyCall l w.

(** The tracked speaker is the speaker of the last entry, when there is
    one. *)
Definition tracked (c : Controller) : Prop :=
  match last (captionHistory c) with
  | Some e => currentSpeaker c = Some (speaker e)
  | None => True
  end.

Definition isUpdateCaption (e : TranscriptCall) : bool :=
  match e with
  | UpdateCaption _ _ => true
  | UpdateSpeakerStatus _ => false
  end.

(** *** The sessions *)

Section WithHost.
Variable host : Host.

(** A call into the browser: it is recorded with its outcome, and throws
    when the host says so. *)
Definition perform (c : HostCall) : M unit := λ w,
  let threw := throws host (length (calls w)) c in
  let w' := setCalls (calls w ++ [(c, threw)]) w in
  if threw then (Throw (HostError c), w') else (Normal (), w').

(** [restartSpeechRecognition()] and [restartRemoteSpeechRecognition()],
    which differ in the session only. *)
Definition restartRecognition (who : Speaker) : M unit := λ w,
  if isActive (this w) && recognition who (this w) then
    tryCatch (perform (RecognitionStart who))
      (λ _, log (ConsoleError
                   match who with
                   | local => "Error restarting speech recognition"
                   | remote => "Error restarting remote speech recognition"
                   end);;
            setTimeout (RetryStart who 1000)) w
  else (Normal (), w).

Definition restartSpeechRecognition : M unit := restartRecognition local.
Definition restartRemoteSpeechRecognition : M unit := restartRecognition remote.

(** The callback of the delayed retry.  The session it starts is the one
    the restart found in place; the fields holding the sessions are never
    cleared. *)
Definition retryStart (who : Speaker) : M unit := λ w,
  if isActive (this w) then
    tryCatch (perform (RecognitionStart who))
      (λ _, log (ConsoleError
                   match who with
                   | local => "Failed to restart speech recognition after delay"
                   | remote => "Failed to restart remote speech recognition after delay"
                   end)) w
  else (Normal (), w).

(** The host runs the [i]-th pending timer. *)
Definition fireTimer (i : nat) : M unit := λ w,
  match timers w !! i with
  | None => (Normal (), w)
  | Some (RetryStart who _) => retryStart who (setTimers (delete i (timers w)) w)
  end.

(** The [onerror] handler of the local session (lines 137-146). *)
Definition onerrorLocal (error : string) : M unit :=
  log (ConsoleError "Local speech recognition error");;
  if String.eqb error "no-speech" then mret ()
  else restartSpeechRecognition.

(** The [onerror] handler of the remote session (lines 212-218). *)
Definition onerrorRemote (error : string) : M unit :=
  log (ConsoleError "Remote speech recognition error");;
  if negb (String.eqb error "audio-capture") && negb (String.eqb error "not-allowed")
  then restartRemoteSpeechRecognition
  else mret ().

Definition onerror (who : Speaker) (error : string) : M unit :=
  match who with
  | local => onerrorLocal error
  | remote => onerrorRemote error
  end.

(** The [onend] handler of either session. *)
Definition onend (who : Speaker) : M unit := λ w,
  if isActive (this w) then restartRecognition who w else (Normal (), w).

(** [initializeSpeechRecognition()]. *)
Definition initializeSpeechRecognition : M unit :=
  if negb (hasSpeechRecognition host) then
    log (ConsoleWarn "Speech Recognition API not supported in this browser")
  else
    perform (RecognitionNew local);;
    modifyThis (setRecognition local true);;
    perform (RecognitionStart local).

(** [setupAudioWorklet(remoteStream)]. *)
Definition setupAudioWorklet (remoteStream : option MediaStream) : M unit :=
  match remoteStream with
  | None => throw (UserError "No remote stream provided for Audio Worklet")
  | Some _ =>
      (λ w, if audioContext (this w) then (Normal (), w)
            else (perform AudioContextNew;; modifyThis (setAudioContext true)) w);;
      perform WorkletAddModule;;
      perform CreateMediaStreamSource;;
      perform WorkletNodeNew;;
      modifyThis (setCaptionProcessor true);;
      perform Connect
  end.

(** [initializeRemoteTranscription(remoteStream)]. *)
Definition initializeRemoteTranscription (remoteStream : option MediaStream) : M unit :=
  match remoteStream with
  | None => log (ConsoleError "No remote stream provided for transcription")
  | Some _ =>
      tryCatch
        (perform AudioContextNew;;
         modifyThis (setAudioContext true);;
         perform CreateMediaStreamSource;;
         perform CreateMediaStreamDestination;;
         perform Connect;;
         if negb (hasSpeechRecognition host) then
           log (ConsoleWarn "Speech Recognition API not supported for remote audio")
         else
           perform (RecognitionNew remote);;
           modifyThis (setRecognition remote true);;
           modifyThis (setRemoteAudioElement true);;
           perform AudioElementAppend;;
           perform (RecognitionStart remote);;
           (λ w, if audioWorkletSupported (this w)
                 then setupAudioWorklet remoteStream w
                 else (Normal (), w));;
           log (ConsoleLog "Remote audio transcription setup complete"))
        (λ error,
           log (ConsoleError "Error setting up remote audio transcription");;
           throw error)
  end.

(** [initialize(localStream, remoteStream)]: the value the returned
    promise settles with.  [Normal b] is a promise fulfilled with [b],
    [Throw e] a promise rejected with [e]. *)
Definition initialize (localStream remoteStream : option MediaStream) : M bool :=
  modifyThis (setStreams localStream remoteStream);;
  tryCatch
    (modify showCaptionContainer;;
     initializeSpeechRecognition;;
     match remoteStream with
     | Some _ =>
         initializeRemoteTranscription remoteStream;;
         log (ConsoleLog "Remote audio transcription initialized")
     | None => mret ()
     end;;
     modifyThis (setIsActive true);;
     mret true)
    (λ _, log (ConsoleError "Error initializing captions");; mret false).

(** [stop()].  [audioContext.close()] returns a promise whose rejection
    is caught and logged; pausing and removing the audio element cannot
    throw. *)
Definition stop : M unit :=
  modifyThis (setIsActive false);;
  (λ w, if speechRecognition (this w)
        then tryCatch (perform (RecognitionStop local))
               (λ _, log (ConsoleError "Error stopping speech recognition")) w
        else (Normal (), w));;
  (λ w, if remoteSpeechRecognition (this w)
        then tryCatch (perform (RecognitionStop remote))
               (λ _, log (ConsoleError "Error stopping remote speech recognition")) w
        else (Normal (), w));;
  modifyThis (setRemoteAudioElement false);;
  (λ w, if audioContext (this w)
        then tryCatch (perform AudioContextClose)
               (λ _, log (ConsoleError "Error closing audio context")) w
        else (Normal (), w));;
  modify hideCaptionContainer;;
  modifyThis (setCaptionHistory []);;
  modifyThis (setCurrentSpeaker None).

(** [new ClosedCaptioning(options)] on a page. *)
Definition constructor (o : Options) (d : Document) : World :=
  ensureCaptionContainer
    (mkWorld
       (mkController o false false false false false [] None None None
                     (hasAudioWorklet host) false)
       d [] [] []).

End WithHost.

(** *** The second copy of the class

    captions.js carries the class twice.  The second copy (from line 468
    on) is a simplified one: its [initializeRemoteTranscription] sets up
    the remote session only and logs what it catches without throwing it
    again, its remote session has an [onerror] handler that only logs and
    no [onend] handler, its [setupAudioWorklet] does nothing, and its
    [stop] has no audio element or audio context to release.  All other
    methods are the same text.  The methods that differ are kept here. *)
Module Simplified.
Section WithHost.
Variable host : Host.

Definition initializeRemoteTranscription (remoteStream : option MediaStream) : M unit :=
  match remoteStream with
  | None => log (ConsoleError "No remote stream provided for transcription")
  | Some _ =>
      tryCatch
        (log (ConsoleLog "Setting up remote transcription - simplified version");;
         if negb (hasSpeechRecognition host) then
           log (ConsoleWarn "Speech Recognition API not supported for remote audio")
         else
           perform host (RecognitionNew remote);;
           modifyThis (setRecognition remote true);;
           perform host (RecognitionStart remote);;
           log (ConsoleLog "Remote audio transcription setup complete"))
        (λ _, log (ConsoleError "Error setting up remote audio transcription"))
  end.

Definition setupAudioWorklet (remoteStream : option MediaStream) : M unit :=
  log (ConsoleLog "Skipping Audio Worklet setup to avoid audio interference").

Definition onerrorRemote (error : string) : M unit :=
  log (ConsoleError "Remote speech recognition error").

Definition initialize (localStream remoteStream : option MediaStream) : M bool :=
  modifyThis (setStreams localStream remoteStream);;
  tryCatch
    (modify showCaptionContainer;;
     initializeSpeechRecognition host;;
     match remoteStream with
     | Some _ =>
         initializeRemoteTranscription remoteStream;;
         log (ConsoleLog "Remote audio transcription initialized")
     | None => mret ()
     end;;
     modifyThis (setIsActive true);;
     mret true)
    (λ _, log (ConsoleError "Error initializing captions");; mret false).

Definition stop : M unit :=
  modifyThis (setIsActive false);;
  (λ w, if speechRecognition (this w)
        then tryCatch (perform host (RecognitionStop local))
               (λ _, log (ConsoleError "Error stopping speech recognition")) w
        else (Normal (), w));;
  (λ w, if remoteSpeechRecognition (this w)
        then tryCatch (perform host (RecognitionStop remote))
               (λ _, log (ConsoleError "Error stopping remote speech recognition")) w
        else (Normal (), w));;
  modify hideCaptionContainer;;
  modifyThis (setCaptionHistory []);;
  modifyThis (setCurrentSpeaker None).

End WithHost.
End Simplified.

(** The events that lead to a restart path: a direct restart, the delayed
    retry, the end or an error of a session, a pending timer coming due. *)
Inductive RestartEvent :=
| RestartCall (who : Speaker)
| Retry (who : Speaker)
| Ended (who : Speaker)
| Failed (who : Speaker) (error : string)
| TimerDue (i : nat).

Definition handle (host : Host) (ev : RestartEvent) : M unit :=
  match ev with
  | RestartCall who => restartRecognition host who
  | Retry who => retryStart host who
  | Ended who => onend host who
  | Failed who error => onerror host who error
  | TimerDue i => fireTimer host i
  end.

Definition handleAll (host : Host) (evs : list RestartEvent) (w : World) : World :=
  fold_left (λ w ev, exec (handle host ev) w) evs w.

(** A browser with every capability in which the calls throw from the
    [n]-th of the run on. *)
Definition flakyHost (n : nat) : Host := mkHost true true (λ i _, n <=? i)%nat.

(** A browser with every capability in which no call throws. *)
Definition willingHost : Host := mkHost true true (λ _ _, false).

(** A controller initialised with both streams on a willing browser. *)
Definition activeWorld : World :=
  exec (initialize willingHost (Some 1%nat) (Some 2%nat))
       (constructor willingHost defaultOptions ∅).

(** A call in which the browser's calls start to throw right after the
    13 calls of a full initialisation: the local session reports a network
    error, the restart's start attempt throws and leaves a delayed retry
    pending, and the call is stopped before the retry is due. *)
Definition stoppedWorld : World :=
  exec (stop (flakyHost 13))
    (exec (onerror (flakyHost 13) local "network")
       (exec (initialize (flakyHost 13) (Some 1%nat) (Some 2%nat))
          (constructor (flakyHost 13) defaultOptions ∅))).

(** The worklet's messages reaching the controller one after the other. *)
Definition deliver (msgs : list CaptionProcessor.Message) (w : World) : World :=
  fold_left (λ w m, onmessage m w) msgs w.

Definition isSpeechStart (m : CaptionProcessor.Message) : bool :=
  match m with
  | CaptionProcessor.SpeechStart _ => true
  | _ => false
  end.

(** Everything that can happen to a controller: the calls of its
    interface, the results of the two sessions, the worklet's messages, and
    the events that lead to a restart path. *)
Inductive Event :=
| DoInitialize (localStream remoteStream : option MediaStream)
| DoStop
| DoUpdateCaption (t : jsstring) (who : Speaker)
| DoUpdateSpeakerStatus (who : Speaker)
| OnResult (who : Speaker) (transcripts : list jsstring)
| OnMessage (m : CaptionProcessor.Message)
| OnSession (ev : RestartEvent).

Definition react (host : Host) (w : World) (e : Event) : World :=
  match e with
  | DoInitialize l r => exec (initialize host l r) w
  | DoStop => exec (stop host) w
  | DoUpdateCaption t who => updateCaption t who w
  | DoUpdateSpeakerStatus who => updateSpeakerStatus who w
  | OnResult who ts => onresult who ts w
  | OnMessage m => onmessage m w
  | OnSession ev => exec (handle host ev) w
  end.

Definition reactAll (host : Host) (es : list Event) (w : World) : World :=
  fold_left (react host) es w.

(** Whether a host call starts a session. *)
Definition isStartCall (c : HostCall * bool) : bool :=
  match c.1 with
  | RecognitionStart _ => true
  | _ => false
  end.

(** A controller with a maximum of 2 whose history is full: the local
    party said "one", the remote party answered "two". *)
Definition fullWorld : World :=
  applyCalls [UpdateCaption (lit "one") local; UpdateCaption (lit "two") remote]
             (constructor willingHost (withMaxHistoryLength 2 defaultOptions) ∅).

(** A browser without the speech recognition interface, in which no call
    throws. *)
Definition deafHost : Host := mkHost false true (λ _ _, false).

End ClosedCaptioning.

(* ===================================================================== *)
(** ** Facts about the worklet processor                                  *)
(* ===================================================================== *)

Section DetectorFacts.
Import CaptionProcessor.

(** The buffering loop never touches the detector's fields. *)
Lemma pushSample_detector now acc x :
  isActive (pushSample now acc x).1 = isActive acc.1
  ∧ silenceFrames (pushSample now acc x).1 = silenceFrames acc.1
  ∧ silenceThreshold (pushSample now acc x).1 = silenceThreshold acc.1
  ∧ maxSilenceFrames (pushSample now acc x).1 = maxSilenceFrames acc.1
  ∧ bufferSize (pushSample now acc x).1 = bufferSize acc.1.
Proof.
  unfold pushSample; simpl.
  destruct (bufferSize acc.1 <=? S (bufferIndex acc.1))%nat; simpl; auto.
Qed.

Lemma fold_pushSample_detector now input : ∀ acc,
  isActive (fold_left (pushSample now) input acc).1 = isActive acc.1
  ∧ silenceFrames (fold_left (pushSample now) input acc).1 = silenceFrames acc.1
  ∧ silenceThreshold (fold_left (pushSample now) input acc).1 = silenceThreshold acc.1
  ∧ maxSilenceFrames (fold_left (pushSample now) input acc).1 = maxSilenceFrames acc.1
  ∧ bufferSize (fold_left (pushSample now) input acc).1 = bufferSize acc.1.
Proof.
  induction input as [|x input IH]; intros acc; simpl; [auto|].
  destruct (IH (pushSample now acc x)) as (-> & -> & -> & -> & ->).
  apply pushSample_detector.
Qed.

Lemma detect_config level p :
  silenceThreshold (detect level p).1 = silenceThreshold p
  ∧ maxSilenceFrames (detect level p).1 = maxSilenceFrames p
  ∧ bufferSize (detect level p).1 = bufferSize p
  ∧ buffer (detect level p).1 = buffer p
  ∧ bufferIndex (detect level p).1 = bufferIndex p.
Proof.
  unfold detect.
  destruct (PrimFloat.ltb _ _); simpl.
  - destruct (isActive p); simpl; auto.
  - destruct (isActive p && _); simpl; auto.
Qed.

(** A call without samples leaves the processor as it is. *)
Lemma process_no_input q p :
  isLoud (silenceThreshold p) q = false →
  isQuiet (silenceThreshold p) q = false →
  process q p = (p, []).
Proof.
  unfold isLoud, isQuiet, process.
  destruct (inputs q) as [[|x input]|]; try done.
  destruct (PrimFloat.ltb _ _); done.
Qed.

(** On a loud block the detector is active afterwards and the quiet
    counter is back at zero. *)
Lemma process_loud q p :
  isLoud (silenceThreshold p) q = true →
  isActive (process q p).1 = true ∧ silenceFrames (process q p).1 = 0.
Proof.
  unfold isLoud, process.
  destruct (inputs q) as [[|x input]|]; try done.
  intros Hl.
  destruct (fold_pushSample_detector (currentTime q) (x :: input)
              (detect (audioLevel (x :: input)) p)) as (-> & -> & _).
  unfold detect. rewrite Hl. simpl.
  destruct (isActive p) eqn:Ha; simpl; rewrite ?Ha; done.
Qed.

(** On a quiet block the counter advances, and an active detector falls
    back to inactive exactly when the counter passes the hangover limit. *)
Lemma process_quiet q p :
  isQuiet (silenceThreshold p) q = true →
  silenceFrames (process q p).1 = incr (silenceFrames p)
  ∧ isActive (process q p).1
    = isActive p && negb (maxSilenceFrames p <? incr (silenceFrames p)).
Proof.
  unfold isQuiet, process.
  destruct (inputs q) as [[|x input]|]; try done.
  intros Hq. apply negb_true_iff in Hq.
  destruct (fold_pushSample_detector (currentTime q) (x :: input)
              (detect (audioLevel (x :: input)) p)) as (-> & -> & _).
  unfold detect. rewrite Hq. simpl.
  destruct (isActive p) eqn:Ha; simpl; rewrite ?Ha; [|done].
  destruct (maxSilenceFrames p <? incr (silenceFrames p)); done.
Qed.

Lemma loud_quiet_exclusive thr q :
  isLoud thr q = true → isQuiet thr q = true → False.
Proof.
  unfold isLoud, isQuiet.
  destruct (inputs q) as [[|x input]|]; try done.
  destruct (PrimFloat.ltb _ _); done.
Qed.

Lemma process_config q p :
  silenceThreshold (process q p).1 = silenceThreshold p
  ∧ maxSilenceFrames (process q p).1 = maxSilenceFrames p
  ∧ bufferSize (process q p).1 = bufferSize p.
Proof.
  unfold process.
  destruct (inputs q) as [[|x input]|]; try done.
  destruct (fold_pushSample_detector (currentTime q) (x :: input)
              (detect (audioLevel (x :: input)) p)) as (_ & _ & -> & -> & ->).
  destruct (detect_config (audioLevel (x :: input)) p) as (-> & -> & -> & _).
  done.
Qed.

Lemma feed_fst acc q : (feed acc q).1 = (process q acc.1).1.
Proof. done. Qed.

Lemma feedAll_config qs : ∀ acc,
  silenceThreshold (fold_left feed qs acc).1 = silenceThreshold acc.1
  ∧ maxSilenceFrames (fold_left feed qs acc).1 = maxSilenceFrames acc.1
  ∧ bufferSize (fold_left feed qs acc).1 = bufferSize acc.1.
Proof.
  induction qs as [|q qs IH]; intros acc; simpl; [done|].
  destruct (IH (feed acc q)) as (-> & -> & ->).
  rewrite feed_fst. apply process_config.
Qed.

(** After [k] quiet blocks, a detector that was active with its counter at
    [s] is still active exactly when [s + k] has not passed the limit. *)
Lemma quiet_blocks_hangover qs : ∀ acc,
  forallb (isQuiet (silenceThreshold acc.1)) qs = true →
  0 ≤ silenceFrames acc.1 →
  maxSilenceFrames acc.1 < 2 ^ 53 →
  isActive acc.1 = true →
  silenceFrames acc.1 ≤ maxSilenceFrames acc.1 →
  let r := (fold_left feed qs acc).1 in
  (isActive r = true ↔ silenceFrames acc.1 + Z.of_nat (length qs) ≤ maxSilenceFrames acc.1)
  ∧ (isActive r = true → silenceFrames r = silenceFrames acc.1 + Z.of_nat (length qs)).
Proof.
  induction qs as [|q qs IH]; intros acc Hq H0 Hmax Hact Hle; simpl in *.
  - split; [split; [lia | done] | lia].
  - apply andb_true_iff in Hq as [Hq Hqs].
    destruct (process_quiet q acc.1 Hq) as [Hsf Hac].
    destruct (process_config q acc.1) as (Hthr & Hmx & _).
    assert (Hincr : incr (silenceFrames acc.1) = silenceFrames acc.1 + 1).
    { unfold incr. destruct (Z.ltb_spec (silenceFrames acc.1) (2 ^ 53)); lia. }
    rewrite Hincr in Hsf, Hac. rewrite Hact in Hac. simpl in Hac.
    destruct (Z.ltb_spec (maxSilenceFrames acc.1) (silenceFrames acc.1 + 1)) as [Hgt|Hok];
      simpl in Hac.
    + (* the limit is passed on this block: inactive from here on *)
      assert (Hoff : isActive (fold_left feed qs (feed acc q)).1 = false).
      { clear IH. revert Hqs Hac. rewrite <- Hthr, <- !feed_fst.
        generalize (feed acc q). clear.
        induction qs as [|q' qs IH]; intros acc Hqs Hac; simpl in *; [done|].
        apply andb_true_iff in Hqs as [Hq' Hqs].
        apply IH.
        - rewrite feed_fst. destruct (process_config q' acc.1) as (-> & _). done.
        - rewrite feed_fst. destruct (process_quiet q' acc.1 Hq') as [_ ->].
          rewrite Hac. done. }
      rewrite Hoff. split; [split; [done | lia] | done].
    + specialize (IH (feed acc q)). rewrite !feed_fst in IH.
      rewrite Hthr, Hmx, Hsf, Hac in IH.
      destruct IH as [IH1 IH2]; try done; try lia.
      split; [rewrite IH1; lia | intros Ha; rewrite (IH2 Ha); lia].
Qed.

(** C1.  The voice-activity detector.  For every processor state and every
    block: an inactive detector becomes active exactly on a loud block (a
    block with samples whose mean absolute amplitude is strictly above the
    threshold), and the quiet counter is then 0; an active detector becomes
    inactive exactly on a quiet block that takes the quiet counter past the
    hangover limit.  For the processor as constructed (threshold 0.01,
    limit 30) and any history of blocks: after a loud block followed by [k]
    quiet blocks the detector is still active exactly when [k <= 30], so it
    falls back on the 31st consecutive quiet block and not on the 30th. *)
Theorem detector_transitions :
  (∀ p q,
     (isActive p = false →
        (isActive (process q p).1 = true ↔ isLoud (silenceThreshold p) q = true)
        ∧ (isActive (process q p).1 = true → silenceFrames (process q p).1 = 0))
     ∧ (isActive p = true →
        (isActive (process q p).1 = false
         ↔ isQuiet (silenceThreshold p) q = true
           ∧ maxSilenceFrames p < incr (silenceFrames p))))
  ∧ (∀ pre l qs,
       isLoud 0.01 l = true →
       forallb (isQuiet 0.01) qs = true →
       (isActive (run (pre ++ l :: qs)).1 = true ↔ (length qs ≤ 30)%nat)).
Proof.
  split.
  - intros p q.
    destruct (isLoud (silenceThreshold p) q) eqn:Hl;
      destruct (isQuiet (silenceThreshold p) q) eqn:Hq.
    + destruct (loud_quiet_exclusive _ _ Hl Hq).
    + destruct (process_loud q p Hl) as [Ha Hs]. rewrite Ha, Hs.
      intuition congruence.
    + destruct (process_quiet q p Hq) as [Hs Ha]. rewrite Ha.
      split; intros Hp; rewrite Hp; simpl; [intuition congruence|].
      destruct (Z.ltb_spec (maxSilenceFrames p) (incr (silenceFrames p)));
        simpl; intuition (try congruence; try lia).
    + rewrite (process_no_input q p Hl Hq). simpl.
      intuition congruence.
  - intros pre l qs Hl Hqs.
    unfold run. rewrite fold_left_app. simpl.
    set (acc := fold_left feed pre constructor).
    destruct (feedAll_config pre constructor) as (Hthr & Hmx & _).
    fold acc in Hthr, Hmx. simpl in Hthr, Hmx.
    assert (Hl' : isLoud (silenceThreshold acc.1) l = true) by (rewrite Hthr; done).
    destruct (process_loud l acc.1 Hl') as [Ha Hs].
    destruct (process_config l acc.1) as (Hthr' & Hmx' & _).
    destruct (quiet_blocks_hangover qs (feed acc l)) as [Hiff _];
      rewrite ?feed_fst, ?Hthr', ?Hmx', ?Hthr, ?Hmx, ?Hs; try done; try lia.
    rewrite Hiff. rewrite feed_fst, Hs, Hmx', Hmx. lia.
Qed.

(** A loud block, then 31 silent ones: inactive afterwards. *)
Lemma detector_transitions_witness :
  isActive (run ([] ++ mkQuantum (Some [0.5%float]) 0
                  :: replicate 31 (mkQuantum (Some [0%float; 0%float]) 0))).1 = true
  ↔ (length (replicate 31 (mkQuantum (Some [0%float; 0%float]) 0)) ≤ 30)%nat.
Proof.
  apply (proj2 detector_transitions []); vm_compute; reflexivity.
Defined.

End DetectorFacts.

Section BufferFacts.
Import CaptionProcessor.

Lemma window_app n (s t : list float) j :
  ((j + 1) * n ≤ length s)%nat → window n (s ++ t) j = window n s j.
Proof.
  intros Hj. unfold window.
  assert (j * n + n ≤ length s)%nat by lia.
  rewrite drop_app_le by lia.
  rewrite take_app_le; [done|]. rewrite length_drop. lia.
Qed.

Lemma windows_app n now (s t : list float) k :
  (k * n ≤ length s)%nat →
  map (λ j, ProcessAudio (window n (s ++ t) j) now) (seq 0 k)
  = map (λ j, ProcessAudio (window n s j) now) (seq 0 k).
Proof.
  intros Hk. apply map_ext_in. intros j Hj.
  apply in_seq in Hj. rewrite window_app; [done|].
  transitivity (k * n)%nat; [|done].
  apply Nat.mul_le_mono_r. lia.
Qed.

(** The buffering loop over a block, from a well-shaped window: with
    [stream] the samples pending in the window followed by the block, the
    loop leaves [length stream = k * size + index], the pending samples at
    the front of the window, the tail of the previous full window behind
    them, and it has handed off the first [k] full windows of the stream
    when the detector is active, nothing otherwise. *)
Lemma fold_pushSample_window now blk : ∀ p out,
  windowOk p →
  let stream := take (bufferIndex p) (buffer p) ++ blk in
  let n := bufferSize p in
  let r := fold_left (pushSample now) blk (p, out) in
  ∃ k : nat,
    length stream = (k * n + bufferIndex r.1)%nat
    ∧ windowOk r.1
    ∧ (∀ i, (i < bufferIndex r.1)%nat → buffer r.1 !! i = stream !! (k * n + i)%nat)
    ∧ (∀ i, (bufferIndex r.1 ≤ i < n)%nat → (1 ≤ k)%nat →
            buffer r.1 !! i = stream !! ((k - 1) * n + i)%nat)
    ∧ (k = 0%nat → ∀ i, (bufferIndex r.1 ≤ i)%nat → buffer r.1 !! i = buffer p !! i)
    ∧ r.2 = out ++ (if isActive p
                    then map (λ j, ProcessAudio (window n stream j) now) (seq 0 k)
                    else []).
Proof.
  induction blk as [|x blk IH] using rev_ind; intros p out [Hlen Hidx]; simpl.
  - exists 0%nat. rewrite app_nil_r, length_take. simpl.
    split_and!; try done; try lia.
    + intros i Hi. rewrite lookup_take_lt; [done|lia].
    + destruct (isActive p); by rewrite app_nil_r.
  - rewrite fold_left_app. simpl.
    destruct (IH p out (conj Hlen Hidx)) as (k & Hk & [Hlen0 Hidx0] & HA & HB & HC & Hout).
    destruct (fold_pushSample_detector now blk (p, out)) as (Hact & _ & _ & _ & Hsz).
    simpl in Hact, Hsz.
    set (r0 := fold_left (pushSample now) blk (p, out)) in *.
    set (s0 := take (bufferIndex p) (buffer p) ++ blk) in *.
    rewrite (assoc_L (++)). fold s0.
    rewrite Hsz in Hlen0, Hidx0.
    unfold pushSample. simpl. rewrite Hsz.
    destruct (Nat.leb_spec (bufferSize p) (S (bufferIndex r0.1))) as [Hfull|Hroom]; simpl.
    + (* the window is full: hand it off and start over *)
      assert (Hn : S (bufferIndex r0.1) = bufferSize p) by lia.
      assert (Hfilled : ∀ i, (i < bufferSize p)%nat →
                <[bufferIndex r0.1:=x]> (buffer r0.1) !! i
                = (s0 ++ [x]) !! (k * bufferSize p + i)%nat).
      { intros i Hi. destruct (decide (i = bufferIndex r0.1)) as [->|Hne].
        - rewrite list_lookup_insert_eq by lia.
          rewrite <- Hk. by rewrite lookup_app_r, Nat.sub_diag by lia.
        - rewrite list_lookup_insert_ne by done.
          rewrite HA by lia. rewrite lookup_app_l by lia. done. }
      exists (S k). rewrite seq_S, length_app, Hk. unfold windowOk. simpl.
      split_and!.
      * lia.
      * rewrite length_insert, Hsz. done.
      * rewrite Hsz. lia.
      * intros i Hi. lia.
      * intros i Hi _. rewrite Nat.sub_0_r. apply Hfilled. lia.
      * done.
      * rewrite Hout, <- (assoc_L (++)). f_equal.
        unfold processBuffer. simpl. rewrite Hact.
        destruct (isActive p); [|done].
        rewrite map_app. simpl. f_equal.
        -- symmetry. apply windows_app. lia.
        -- f_equal. f_equal. unfold window.
           apply list_eq. intros i.
           destruct (decide (i < bufferSize p)%nat) as [Hi|Hi].
           ++ rewrite Hfilled by done.
              rewrite lookup_take_lt by done. by rewrite lookup_drop.
           ++ rewrite lookup_take_ge by lia.
              apply lookup_ge_None_2. rewrite length_insert. lia.
    + (* still room in the window *)
      exists k. rewrite length_app, Hk. unfold windowOk. simpl.
      split_and!.
      * lia.
      * rewrite length_insert, Hsz. done.
      * rewrite Hsz. lia.
      * intros i Hi. destruct (decide (i = bufferIndex r0.1)) as [->|Hne].
        -- rewrite list_lookup_insert_eq by lia.
           rewrite <- Hk. by rewrite lookup_app_r, Nat.sub_diag by lia.
        -- rewrite list_lookup_insert_ne by done.
           rewrite HA by lia. rewrite lookup_app_l by lia. done.
      * intros i Hi Hk1. rewrite list_lookup_insert_ne by lia.
        rewrite HB by lia. rewrite lookup_app_l; [done|].
        rewrite Hk. destruct k as [|k']; [lia|]. simpl. rewrite Nat.sub_0_r. lia.
      * intros Hk0 i Hi. rewrite list_lookup_insert_ne by lia. apply HC; [done|lia].
      * rewrite Hout. f_equal. destruct (isActive p); [|done].
        symmetry. apply windows_app. lia.
Qed.

Lemma detect_windowOk level p : windowOk p → windowOk (detect level p).1.
Proof.
  unfold windowOk.
  destruct (detect_config level p) as (_ & _ & -> & -> & ->). done.
Qed.

Lemma process_windowOk q p : windowOk p → windowOk (process q p).1.
Proof.
  intros Hp. unfold process.
  destruct (inputs q) as [[|x input]|]; try done.
  pose proof (detect_windowOk (audioLevel (x :: input)) p Hp) as Hd.
  destruct (fold_pushSample_window (currentTime q) (x :: input) _
              (detect (audioLevel (x :: input)) p).2 Hd) as (k & _ & Hok & _).
  by destruct (detect (audioLevel (x :: input)) p).
Qed.

(** Every processor reached from the constructed one keeps the window
    well shaped, with the configured size of 4096 samples. *)
Lemma run_windowOk qs :
  windowOk (run qs).1 ∧ bufferSize (run qs).1 = 4096%nat.
Proof.
  unfold run. split; [|by destruct (feedAll_config qs constructor) as (_ & _ & ->)].
  assert (H0 : windowOk constructor.1).
  { split; [exact (length_replicate 4096 0%float) | simpl; lia]. }
  revert H0. generalize constructor.
  induction qs as [|q qs IH]; intros acc Hacc; simpl; [done|].
  apply IH. rewrite feed_fst. by apply process_windowOk.
Qed.

(** C5.  The accumulation window.  For every processor reached from the
    constructed one and every block with samples, with [stream] the samples
    pending in the window followed by the block and [k] the number of full
    4096-sample windows in [stream]: whatever the activity state, every
    sample is copied, so that afterwards the index is
    [length stream mod 4096], the front of the window holds the samples
    after the last full window and the rest holds the tail of the last full
    window (or is untouched when no window filled); each of the [k] times
    the index reached 4096 it was put back to 0; and the messages posted
    after the detector's own are a copy of each of the [k] full windows, in
    order, when the detector is active after this block, and nothing when
    it is not. *)
Theorem buffering_handoff qs x xs now :
  let p := (run qs).1 in
  let input := x :: xs in
  let r := process (mkQuantum (Some input) now) p in
  let stream := take (bufferIndex p) (buffer p) ++ input in
  let k := (length stream / 4096)%nat in
  length (buffer r.1) = 4096%nat
  ∧ bufferIndex r.1 = (length stream `mod` 4096)%nat
  ∧ (∀ i, (i < bufferIndex r.1)%nat →
          buffer r.1 !! i = stream !! (k * 4096 + i)%nat)
  ∧ (∀ i, (bufferIndex r.1 ≤ i < 4096)%nat → (1 ≤ k)%nat →
          buffer r.1 !! i = stream !! ((k - 1) * 4096 + i)%nat)
  ∧ (k = 0%nat → ∀ i, (bufferIndex r.1 ≤ i)%nat → buffer r.1 !! i = buffer p !! i)
  ∧ r.2 = (detect (audioLevel input) p).2
          ++ (if isActive r.1
              then map (λ j, ProcessAudio (window 4096 stream j) now) (seq 0 k)
              else []).
Proof.
  intros p input r stream k.
  destruct (run_windowOk qs) as [Hok Hsz]. fold p in Hok, Hsz.
  assert (Hr : r = fold_left (pushSample now) input
                    ((detect (audioLevel input) p).1, (detect (audioLevel input) p).2)).
  { subst r. unfold process, input. simpl. by destruct (detect _ p). }
  clearbody r input p. subst r k. rewrite <- Hsz. clear Hsz.
  pose proof (detect_windowOk (audioLevel input) p Hok) as Hd.
  destruct (detect_config (audioLevel input) p) as (_ & _ & Hdsz & Hdb & Hdi).
  destruct (fold_pushSample_window now input _ (detect (audioLevel input) p).2 Hd)
    as (k & Hk & [Hlen Hidx] & HA & HB & HC & Hout).
  destruct (fold_pushSample_detector now input
              ((detect (audioLevel input) p).1, (detect (audioLevel input) p).2))
    as (Hact & _ & _ & _ & Hrsz).
  cbn [fst snd] in Hact, Hrsz.
  set (r := fold_left (pushSample now) input
              ((detect (audioLevel input) p).1, (detect (audioLevel input) p).2)) in *.
  rewrite Hdb, Hdi, Hdsz in *. fold stream in Hk, HA, HB, HC, Hout.
  rewrite Hrsz in Hlen, Hidx.
  assert (Hq : (length stream / bufferSize p)%nat = k).
  { symmetry. apply (Nat.div_unique _ _ _ (bufferIndex r.1)); lia. }
  assert (Hm : (length stream `mod` bufferSize p)%nat = bufferIndex r.1).
  { symmetry. apply (Nat.mod_unique _ _ k); lia. }
  rewrite Hq, Hm, Hact. by split_and!.
Qed.

(** 4096 loud samples into a fresh processor: speech starts, and the one
    full window is handed off. *)
Example loud_window_is_handed_off :
  (process (mkQuantum (Some (replicate 4096 0.5%float)) 1) constructor.1).2
  = [SpeechStart 0.5; ProcessAudio (replicate 4096 0.5%float) 1].
Proof. vm_compute. reflexivity. Qed.

(** 4096 silent samples into a fresh processor: they are all in the
    window, the index is back at 0, and nothing is handed off. *)
Example silent_window_is_dropped :
  process (mkQuantum (Some (replicate 4096 0.001%float)) 1) constructor.1
  = (mkProcessor 4096 (replicate 4096 0.001%float) 0 0.01 1 30 false, []).
Proof. vm_compute. reflexivity. Qed.

End BufferFacts.

(* ===================================================================== *)
(** ** Facts about the caption history                                    *)
(* ===================================================================== *)

Section TranscriptFacts.
Import ClosedCaptioning.

Lemma trimStart_whitespace (t : jsstring) :
  forallb isWhiteSpace t = true → trimStart t = [].
Proof.
  induction t as [|c t IH]; simpl; [done|].
  intros [Hc Ht]%andb_true_iff. rewrite Hc. auto.
Qed.

Lemma isBlank_whitespace (t : jsstring) :
  forallb isWhiteSpace t = true → isBlank t = true.
Proof.
  intros Ht. unfold isBlank, trim, trimEnd.
  rewrite (trimStart_whitespace t Ht). by destruct t.
Qed.

(** C10.  A text that is empty or made of white space only (the code
    units [trim] strips) leaves everything as it was: the caption history,
    the current speaker, and the rest of the controller and the page. *)
Theorem updateCaption_blank (t : jsstring) (who : Speaker) (w : World) :
  forallb isWhiteSpace t = true →
  updateCaption t who w = w.
Proof.
  intros Ht. unfold updateCaption. by rewrite (isBlank_whitespace t Ht).
Qed.

Lemma updateCaption_blank_witness :
  updateCaption (lit "  ") remote
    (updateCaption (lit "hi") local (constructor willingHost defaultOptions ∅))
  = updateCaption (lit "hi") local (constructor willingHost defaultOptions ∅).
Proof.
  apply (updateCaption_blank (lit "  ") remote). reflexivity.
Defined.

(** The options, and with them the id of the container, are never
    reassigned by [recordCaption]. *)
Lemma recordCaption_options t who c :
  options (recordCaption t who c) = options c.
Proof.
  unfold recordCaption.
  repeat (case_decide || case_match); done.
Qed.

(** With the captions element on the page, a text that is not blank is
    recorded, and the element is still there afterwards. *)
Lemma updateCaption_recorded t who w :
  isBlank t = false →
  is_Some (captionsElement w) →
  this (updateCaption t who w) = recordCaption t who (this w)
  ∧ is_Some (captionsElement (updateCaption t who w)).
Proof.
  intros Hb [els Hels]. unfold updateCaption. rewrite Hb, Hels.
  unfold renderCaptions, captionsElement, containerId in *. simpl.
  rewrite recordCaption_options, Hels. simpl.
  split; [done|].
  rewrite recordCaption_options.
  destruct (document w !! captionContainerId (options (this w))) as [c|] eqn:Hc;
    [|done].
  rewrite lookup_alter_eq, Hc. simpl. eauto.
Qed.

(** Without the captions element, nothing is recorded. *)
Lemma updateCaption_no_element t who w :
  captionsElement w = None → updateCaption t who w = w.
Proof.
  intros Hn. unfold updateCaption. rewrite Hn. by destruct (isBlank t).
Qed.

Lemma this_constructor host o d :
  this (constructor host o d)
  = mkController o false false false false false [] None None None
                 (hasAudioWorklet host) false.
Proof. unfold constructor, ensureCaptionContainer. by case_match. Qed.

(** A page without an element under the container's id gets the container
    and its captions element from the constructor. *)
Lemma constructor_creates_captions host o (d : Document) :
  d !! captionContainerId o = None →
  captionsElement (constructor host o d) = Some [].
Proof.
  intros Hd. unfold constructor, ensureCaptionContainer, captionsElement, containerId.
  simpl. rewrite Hd. simpl. by rewrite lookup_insert_eq.
Qed.

(** C4.  The example of the specification.  On every page on which the
    captions element is found, a controller constructed with a maximum
    history length of 2 that is given (local, "hi"), (local, "hi there") and
    (remote, "hello") in this order ends with the history
    [{local, "hi there"}; {remote, "hello"}]. *)
Theorem history_example host o (d : Document) :
  maxHistoryLength o = 2 →
  is_Some (captionsElement (constructor host o d)) →
  captionHistory
    (this (updateCaption (lit "hello") remote
             (updateCaption (lit "hi there") local
                (updateCaption (lit "hi") local (constructor host o d)))))
  = [mkCaption local (lit "hi there"); mkCaption remote (lit "hello")].
Proof.
  intros Hmax Hel.
  destruct (updateCaption_recorded (lit "hi") local _ eq_refl Hel) as [H1 Hel1].
  destruct (updateCaption_recorded (lit "hi there") local _ eq_refl Hel1) as [H2 Hel2].
  destruct (updateCaption_recorded (lit "hello") remote _ eq_refl Hel2) as [H3 _].
  rewrite H3, H2, H1, this_constructor.
  destruct o as [id cls mx colours labels]. simpl in Hmax. subst mx.
  reflexivity.
Qed.

Lemma history_example_witness :
  captionHistory
    (this (updateCaption (lit "hello") remote
             (updateCaption (lit "hi there") local
                (updateCaption (lit "hi") local
                   (constructor willingHost (withMaxHistoryLength 2 defaultOptions) ∅)))))
  = [mkCaption local (lit "hi there"); mkCaption remote (lit "hello")].
Proof.
  apply (history_example willingHost (withMaxHistoryLength 2 defaultOptions) ∅).
  - reflexivity.
  - rewrite constructor_creates_captions; [eauto | reflexivity].
Defined.

(** With a maximum of at least 1, [recordCaption] keeps the history
    within the maximum. *)
Lemma recordCaption_bounded t who c :
  1 ≤ maxHistoryLength (options c) →
  Z.of_nat (length (captionHistory c)) ≤ maxHistoryLength (options c) →
  Z.of_nat (length (captionHistory (recordCaption t who c)))
  ≤ maxHistoryLength (options c).
Proof.
  intros H1 Hb. unfold recordCaption.
  case_decide; simpl.
  - rewrite length_app. simpl.
    destruct (Z.ltb_spec (maxHistoryLength (options c))
                (Z.of_nat (length (captionHistory c) + 1))); simpl.
    + rewrite length_drop, length_app. simpl. lia.
    + rewrite length_app. simpl. lia.
  - destruct (Nat.ltb_spec 0 (length (captionHistory c))); simpl.
    + rewrite length_alter. lia.
    + rewrite length_app. simpl. lia.
Qed.

(** A new speaker's entry arriving at a full history (maximum at least 1)
    pushes out the oldest entry and nothing else. *)
Lemma recordCaption_evicts_oldest t who c :
  currentSpeaker c ≠ Some who →
  1 ≤ maxHistoryLength (options c) →
  Z.of_nat (length (captionHistory c)) = maxHistoryLength (options c) →
  captionHistory (recordCaption t who c)
  = drop 1 (captionHistory c) ++ [mkCaption who (trim t)].
Proof.
  intros Hs H1 Hfull. unfold recordCaption.
  rewrite decide_True by done. simpl. rewrite length_app. simpl.
  destruct (Z.ltb_spec (maxHistoryLength (options c))
              (Z.of_nat (length (captionHistory c) + 1))); [|lia].
  simpl. destruct (captionHistory c); simpl in *; [lia | done].
Qed.

(** Below the maximum, a new speaker's entry is appended and nothing is
    removed. *)
Lemma recordCaption_appends t who c :
  currentSpeaker c ≠ Some who →
  Z.of_nat (length (captionHistory c)) < maxHistoryLength (options c) →
  captionHistory (recordCaption t who c)
  = captionHistory c ++ [mkCaption who (trim t)].
Proof.
  intros Hs Hroom. unfold recordCaption.
  rewrite decide_True by done. simpl. rewrite length_app. simpl.
  destruct (Z.ltb_spec (maxHistoryLength (options c))
              (Z.of_nat (length (captionHistory c) + 1))); [lia | done].
Qed.

(** The invariant for any run of [updateCaption] and
    [updateSpeakerStatus] calls on a controller whose maximum is at
    least 1. *)
Lemma updateCaption_bounded t who w :
  1 ≤ maxHistoryLength (options (this w)) →
  Z.of_nat (length (captionHistory (this w))) ≤ maxHistoryLength (options (this w)) →
  options (this (updateCaption t who w)) = options (this w)
  ∧ Z.of_nat (length (captionHistory (this (updateCaption t who w))))
    ≤ maxHistoryLength (options (this w)).
Proof.
  intros H1 Hb.
  destruct (isBlank t) eqn:Ht.
  { unfold updateCaption. by rewrite Ht. }
  destruct (captionsElement w) as [els|] eqn:Hel.
  - destruct (updateCaption_recorded t who w Ht) as [-> _]; [eauto|].
    rewrite recordCaption_options. split; [done|].
    by apply recordCaption_bounded.
  - by rewrite updateCaption_no_element.
Qed.

Lemma transcript_bounded host o (d : Document) (l : list TranscriptCall) :
  1 ≤ maxHistoryLength o →
  Z.of_nat (length (captionHistory (this (applyCalls l (constructor host o d)))))
  ≤ maxHistoryLength o.
Proof.
  intros H1. unfold applyCalls.
  assert (H0 : options (this (constructor host o d)) = o
               ∧ Z.of_nat (length (captionHistory (this (constructor host o d))))
                 ≤ maxHistoryLength o).
  { rewrite this_constructor. simpl. split; [done | lia]. }
  revert H0. generalize (constructor host o d).
  induction l as [|e l IH]; intros w [Ho Hb]; simpl; [done|].
  apply IH. destruct e as [t who|who]; simpl.
  - subst o. by apply updateCaption_bounded.
  - unfold updateSpeakerStatus. case_decide; simpl; done.
Qed.

(** C2, where the code departs from it.  With a maximum of 0, two
    fragments of the same speaker leave one entry in the history: the
    first is appended and evicted at once, the second finds the history
    empty in the branch that overwrites the last entry and appends there
    without the length check. *)
Example history_exceeds_maximum_zero :
  let w := updateCaption (lit "hi there") local
             (updateCaption (lit "hi") local
                (constructor willingHost (withMaxHistoryLength 0 defaultOptions) ∅)) in
  captionHistory (this w) = [mkCaption local (lit "hi there")]
  ∧ maxHistoryLength (options (this w)) = 0
  ∧ maxHistoryLength (options (this w)) < Z.of_nat (length (captionHistory (this w))).
Proof. vm_compute. split_and!; reflexivity. Qed.

(** While the tracked speaker is the speaker of the last entry,
    [recordCaption] does what the comments of [updateCaption] say: a
    fragment of another speaker becomes a new last entry, a fragment of
    the same speaker replaces the text of the last entry. *)
Lemma recordCaption_tracked t who c (e : Caption) :
  last (captionHistory c) = Some e →
  currentSpeaker c = Some (speaker e) →
  1 ≤ maxHistoryLength (options c) →
  (who ≠ speaker e →
     last (captionHistory (recordCaption t who c)) = Some (mkCaption who (trim t))
     ∧ (captionHistory (recordCaption t who c)
          = captionHistory c ++ [mkCaption who (trim t)]
        ∨ captionHistory (recordCaption t who c)
          = drop 1 (captionHistory c) ++ [mkCaption who (trim t)]))
  ∧ (who = speaker e →
     captionHistory (recordCaption t who c)
     = take (length (captionHistory c) - 1) (captionHistory c)
       ++ [mkCaption (speaker e) (trim t)]).
Proof.
  intros Hlast Hcur H1.
  destruct c as [o act ctx proc rec rrec hist cur ls rs aws el]. simpl in *.
  subst cur. destruct hist as [|e0 h _] using rev_ind; [done|].
  rewrite last_snoc in Hlast. injection Hlast as ->.
  unfold recordCaption. simpl. split.
  - intros Hne. rewrite decide_True by congruence. simpl.
    rewrite !length_app. simpl.
    destruct (_ <? _); simpl.
    + assert (Hd : drop 1 ((h ++ [e]) ++ [mkCaption who (trim t)])
                   = drop 1 (h ++ [e]) ++ [mkCaption who (trim t)])
        by (by destruct h).
      rewrite Hd. split; [by rewrite last_snoc | by right].
    + split; [by rewrite last_snoc | by left].
  - intros ->. rewrite decide_False by (intros Hn; by apply Hn). simpl.
    rewrite length_app. simpl.
    destruct (Nat.ltb_spec 0 (length h + 1)); [|lia].
    simpl. replace (length h + 1 - 1)%nat with (length h + 0)%nat by lia.
    rewrite alter_app_r, Nat.add_0_r, take_app_length. done.
Qed.

(** [recordCaption] keeps the tracked speaker on the last entry when the
    maximum is at least 1. *)
Lemma recordCaption_keeps_tracked t who c :
  1 ≤ maxHistoryLength (options c) →
  tracked c → tracked (recordCaption t who c).
Proof.
  intros H1.
  destruct c as [o act ctx proc rec rrec hist cur ls rs aws el].
  unfold tracked, recordCaption. simpl in *. intros Htr.
  case_decide as Hcur; simpl.
  - rewrite length_app. simpl.
    destruct (Z.ltb_spec (maxHistoryLength o) (Z.of_nat (length hist + 1))); simpl.
    + destruct hist as [|e0 hist]; [simpl in *; lia|].
      change (drop 1 ((e0 :: hist) ++ [mkCaption who (trim t)]))
        with (hist ++ [mkCaption who (trim t)]).
      by rewrite last_snoc.
    + by rewrite last_snoc.
  - assert (cur = Some who) as ->.
    { destruct (decide (cur = Some who)); [done|]. by destruct Hcur. }
    destruct hist as [|e0 h _] using rev_ind; simpl; [done|].
    rewrite length_app. simpl.
    destruct (Nat.ltb_spec 0 (length h + 1)); [|lia]. simpl.
    replace (length h + 1 - 1)%nat with (length h + 0)%nat by lia.
    rewrite alter_app_r. simpl. rewrite last_snoc in Htr |- *. done.
Qed.

(** So the two come apart only through [updateSpeakerStatus]: any run of
    [updateCaption] calls alone on a constructed controller, with a
    maximum of at least 1, keeps the tracked speaker on the last entry. *)
Lemma updateCaption_runs_keep_tracked host o (d : Document) (l : list TranscriptCall) :
  1 ≤ maxHistoryLength o →
  forallb isUpdateCaption l = true →
  tracked (this (applyCalls l (constructor host o d))).
Proof.
  intros H1. unfold applyCalls.
  assert (H0 : options (this (constructor host o d)) = o
               ∧ tracked (this (constructor host o d))).
  { rewrite this_constructor. done. }
  revert H0. generalize (constructor host o d).
  induction l as [|e l IH]; intros w [Ho Htr] Hl; simpl in *; [done|].
  apply andb_true_iff in Hl as [He Hl].
  destruct e as [t who|who]; [|done]. simpl.
  apply IH; [|done].
  destruct (isBlank t) eqn:Ht.
  { unfold updateCaption. by rewrite Ht. }
  destruct (captionsElement w) as [els|] eqn:Hel.
  - destruct (updateCaption_recorded t who w Ht) as [-> _]; [eauto|].
    rewrite recordCaption_options. split; [done|].
    apply recordCaption_keeps_tracked; [by rewrite Ho | done].
  - by rewrite updateCaption_no_element.
Qed.

(** C3, where the code departs from it.  The controller is initialised on
    a willing browser and hears the local party say "hi"; the worklet then
    reports speech on the remote stream, which makes [updateSpeakerStatus]
    set the tracked speaker to remote; the remote session's first fragment
    "hello" now finds the tracked speaker equal to its own, and its text
    replaces the text of the local entry instead of starting an entry of
    its own. *)
Example remote_fragment_overwrites_local_entry :
  let w1 := exec (initialize willingHost (Some 1%nat) (Some 2%nat))
              (constructor willingHost defaultOptions ∅) in
  let w2 := onresult local [lit "hi"] w1 in
  let w3 := onmessage (CaptionProcessor.SpeechStart 0.5) w2 in
  let w4 := onresult remote [lit "hello"] w3 in
  captionHistory (this w2) = [mkCaption local (lit "hi")]
  ∧ currentSpeaker (this w3) = Some remote
  ∧ captionHistory (this w4) = [mkCaption local (lit "hello")].
Proof. vm_compute. split_and!; reflexivity. Qed.

(** The other half: with the local entry last and the tracked speaker
    moved to remote, a further local fragment starts a new entry instead of
    replacing the text of the last one. *)
Example local_fragment_appends_after_speaker_status :
  let w1 := updateCaption (lit "hi") local (constructor willingHost defaultOptions ∅) in
  let w2 := updateSpeakerStatus remote w1 in
  let w3 := updateCaption (lit "hi there") local w2 in
  captionHistory (this w3)
  = [mkCaption local (lit "hi"); mkCaption local (lit "hi there")].
Proof. vm_compute. reflexivity. Qed.

End TranscriptFacts.

(* ===================================================================== *)
(** ** Facts about the sessions                                           *)
(* ===================================================================== *)

Section SessionFacts.
Import ClosedCaptioning.

(** C8.  The local session's error 'no-speech' is logged and otherwise
    ignored, in every state and on every browser: the handler returns
    normally, no host call is attempted (so no restart), no timer is set,
    and the controller (active flag, history, current speaker and all
    other fields) and the page are as they were. *)
Theorem no_speech_is_ignored host w :
  (onerror host local "no-speech" w).1 = Normal ()
  ∧ this (exec (onerror host local "no-speech") w) = this w
  ∧ calls (exec (onerror host local "no-speech") w) = calls w
  ∧ timers (exec (onerror host local "no-speech") w) = timers w
  ∧ document (exec (onerror host local "no-speech") w) = document w.
Proof. by split_and!. Qed.

(** An inactive controller handles every restart event without a host
    call, and stays inactive. *)
Lemma handle_inactive host ev w :
  isActive (this w) = false →
  calls (exec (handle host ev) w) = calls w
  ∧ isActive (this (exec (handle host ev) w)) = false.
Proof.
  intros Hoff.
  assert (Hrestart : ∀ who w', isActive (this w') = false →
            restartRecognition host who w' = (Normal (), w')).
  { intros who w' Hw'. unfold restartRecognition. by rewrite Hw'. }
  destruct ev as [who|who|who|who error|i]; unfold exec; simpl.
  - by rewrite Hrestart.
  - unfold retryStart. by rewrite Hoff.
  - unfold onend. by rewrite Hoff.
  - destruct who; simpl.
    + unfold onerrorLocal, mbind, M_bind, log, modify. simpl.
      destruct (String.eqb error "no-speech"); simpl; [done|].
      unfold restartSpeechRecognition. by rewrite Hrestart.
    + unfold onerrorRemote, mbind, M_bind, log, modify. simpl.
      destruct (negb _ && negb _); simpl; [|done].
      unfold restartRemoteSpeechRecognition. by rewrite Hrestart.
  - unfold fireTimer. destruct (timers w !! i) as [[who delay]|]; [|done].
    unfold retryStart. simpl. by rewrite Hoff.
Qed.

Lemma stop_inactive host w :
  (stop host w).1 = Normal () ∧ isActive (this (exec (stop host) w)) = false.
Proof.
  unfold exec, stop, mbind, M_bind, modifyThis, modify, tryCatch, perform, log.
  simpl.
  repeat (match goal with
          | |- context [if ?b then _ else _] => destruct b eqn:?; simpl
          end); done.
Qed.

(** C9.  The active flag guards every restart path.  [stop()] clears the
    flag, and a constructed controller has it cleared.  From any state in
    which the flag is cleared, and on every browser, no sequence of restart
    events (a call of either restart method, the callback of a delayed
    retry, the end or an error of either session, a pending timer coming
    due) attempts a host call, so none starts a session, and the flag is
    still cleared afterwards. *)
Theorem inactive_never_starts host :
  (∀ w, isActive (this (exec (stop host) w)) = false)
  ∧ (∀ o d, isActive (this (constructor host o d)) = false)
  ∧ (∀ w evs, isActive (this w) = false →
       calls (handleAll host evs w) = calls w
       ∧ isActive (this (handleAll host evs w)) = false).
Proof.
  split_and!.
  - intros w. apply stop_inactive.
  - intros o d. by rewrite this_constructor.
  - intros w evs. revert w. unfold handleAll.
    induction evs as [|ev evs IH]; intros w Hoff; simpl; [done|].
    destruct (handle_inactive host ev w Hoff) as [Hc Ha].
    destruct (IH _ Ha) as [-> ->]. done.
Qed.

Example stoppedWorld_has_pending_retry :
  timers stoppedWorld = [RetryStart local 1000]
  ∧ isActive (this stoppedWorld) = false
  ∧ drop 13 (calls stoppedWorld)
    = [(RecognitionStart local, true); (RecognitionStop local, true);
       (RecognitionStop remote, true); (AudioContextClose, true)].
Proof. vm_compute. split_and!; reflexivity. Qed.

Lemma inactive_never_starts_witness :
  calls (handleAll (flakyHost 13)
           [TimerDue 0; Ended local; Failed remote "network"; RestartCall remote]
           stoppedWorld)
  = calls stoppedWorld
  ∧ isActive (this (handleAll (flakyHost 13)
                      [TimerDue 0; Ended local; Failed remote "network"; RestartCall remote]
                      stoppedWorld)) = false.
Proof.
  apply (proj2 (proj2 (inactive_never_starts (flakyHost 13))) stoppedWorld).
  vm_compute. reflexivity.
Defined.

(** The remote session's handler leaves a permission denial alone: no
    host call and no timer, in every state and on every browser. *)
Lemma remote_denial_not_restarted host w :
  calls (exec (onerror host remote "not-allowed") w) = calls w
  ∧ timers (exec (onerror host remote "not-allowed") w) = timers w
  ∧ this (exec (onerror host remote "not-allowed") w) = this w.
Proof. by split_and!. Qed.

(** The local session's handler does not: on an active controller with a
    local session, a permission denial is answered with a start attempt. *)
Lemma local_denial_restarted host w :
  isActive (this w) = true →
  speechRecognition (this w) = true →
  calls (exec (onerror host local "not-allowed") w)
  = calls w ++ [(RecognitionStart local,
                 throws host (length (calls w)) (RecognitionStart local))].
Proof.
  intros Ha Hs.
  unfold exec, onerror, onerrorLocal, mbind, M_bind, log, modify. simpl.
  unfold restartSpeechRecognition, restartRecognition. simpl. rewrite Ha, Hs. simpl.
  unfold tryCatch, perform. simpl.
  by destruct (throws host (length (calls w)) (RecognitionStart local)).
Qed.

(** C7, where the code departs from it.  On the controller initialised
    with both streams on a willing browser, the local session's error
    'not-allowed' makes the controller call [start()] on the local session
    again; the same error of the remote session does not. *)
Example local_denial_calls_start :
  calls (exec (onerror willingHost local "not-allowed") activeWorld)
  = calls activeWorld ++ [(RecognitionStart local, false)]
  ∧ calls (exec (onerror willingHost remote "not-allowed") activeWorld)
    = calls activeWorld.
Proof. vm_compute. split; reflexivity. Qed.

(** The end of a session is answered with a start attempt while the
    controller is active, whatever error came before it. *)
Example end_of_remote_session_calls_start :
  calls (exec (onend willingHost remote) activeWorld)
  = calls activeWorld ++ [(RecognitionStart remote, false)].
Proof. vm_compute. reflexivity. Qed.

(** C6.  [initialize] settles with a boolean on every browser, for every
    pair of streams and from every state: the promise is never rejected;
    its value is [true] exactly when none of the host calls attempted on
    the way threw, and the controller is then active; when a call threw
    the value is [false] and the active flag is as it was.  [stop], the
    other operation of the interface that calls into the browser, returns
    normally with no value; the remaining operations ([updateCaption],
    [updateSpeakerStatus]) have no result at all. *)
Theorem initialize_settles host :
  (∀ ls rs w, ∃ b new,
      (initialize host ls rs w).1 = Normal b
      ∧ calls (exec (initialize host ls rs) w) = calls w ++ new
      ∧ (b = true ↔ Forall (λ c : HostCall * bool, c.2 = false) new)
      ∧ (b = true → isActive (this (exec (initialize host ls rs) w)) = true)
      ∧ (b = false →
         isActive (this (exec (initialize host ls rs) w)) = isActive (this w)))
  ∧ (∀ w, (stop host w).1 = Normal ()).
Proof.
  split; [|intros w; apply stop_inactive].
  intros ls rs w.
  unfold exec, initialize, initializeSpeechRecognition,
    initializeRemoteTranscription, setupAudioWorklet,
    mbind, M_bind, mret, M_ret, modifyThis, modify, tryCatch, perform, log, throw.
  destruct (hasSpeechRecognition host), rs as [r|], (audioWorkletSupported (this w)) eqn:Haw;
    simpl;
    repeat (first
      [ progress (rewrite Haw; simpl)
      | match goal with
        | |- context [throws ?h ?n ?c] => destruct (throws h n c) eqn:?; simpl
        end ]);
    eexists _, _; (split; [reflexivity|]);
    (split; [rewrite <- ?(assoc_L (++)); try reflexivity; symmetry; apply app_nil_r|]);
    (split; [split; [intros ?; try done; repeat constructor; done
                    | intros HF; try done; exfalso; simpl in HF;
                      repeat match goal with
                             | H : Forall _ (_ :: _) |- _ =>
                                 apply Forall_cons_1 in H as [? H]
                             end;
                      simpl in *; congruence]
            | split; intros ?; done]).
Qed.

Example initialize_succeeds_on_willing_host :
  (initialize willingHost (Some 1%nat) (Some 2%nat)
     (constructor willingHost defaultOptions ∅)).1 = Normal true
  ∧ isActive (this activeWorld) = true
  ∧ length (calls activeWorld) = 13%nat.
Proof. vm_compute. split_and!; reflexivity. Qed.

(** The fifth host call (index 4, [CreateMediaStreamDestination]) throws:
    the promise is fulfilled with [false] and the controller is not
    active. *)
Example initialize_fails_on_flaky_host :
  initialize (flakyHost 4) (Some 1%nat) (Some 2%nat)
    (constructor (flakyHost 4) defaultOptions ∅)
  = (Normal false,
     mkWorld
       (mkController defaultOptions false true false true false [] None
                     (Some 1%nat) (Some 2%nat) true false)
       (document (constructor (flakyHost 4) defaultOptions ∅))
       [(RecognitionNew local, false); (RecognitionStart local, false);
        (AudioContextNew, false); (CreateMediaStreamSource, false);
        (CreateMediaStreamDestination, true)]
       [ConsoleError "Error setting up remote audio transcription";
        ConsoleError "Error initializing captions"]
       []).
Proof. vm_compute. reflexivity. Qed.

(** In the simplified second copy of the class the remote set-up keeps
    its exceptions to itself: with the remote session's [start()] throwing
    (the fourth host call), [initialize] still settles with [true] and the
    controller is active. *)
Example simplified_initialize_hides_remote_failure :
  (Simplified.initialize (flakyHost 3) (Some 1%nat) (Some 2%nat)
     (constructor (flakyHost 3) defaultOptions ∅)).1 = Normal true
  ∧ calls (exec (Simplified.initialize (flakyHost 3) (Some 1%nat) (Some 2%nat))
             (constructor (flakyHost 3) defaultOptions ∅))
    = [(RecognitionNew local, false); (RecognitionStart local, false);
       (RecognitionNew remote, false); (RecognitionStart remote, true)]
  ∧ isActive
      (this (exec (Simplified.initialize (flakyHost 3) (Some 1%nat) (Some 2%nat))
               (constructor (flakyHost 3) defaultOptions ∅))) = true.
Proof. vm_compute. split_and!; reflexivity. Qed.

End SessionFacts.

(* ===================================================================== *)
(** ** Further facts about the worklet processor                          *)
(* ===================================================================== *)

Section ProcessorRuns.
Import CaptionProcessor.

Lemma speechSignals_app a b :
  speechSignals (a ++ b) = speechSignals a ++ speechSignals b.
Proof. apply omap_app. Qed.

Lemma audioBuffers_app a b :
  audioBuffers (a ++ b) = audioBuffers a ++ audioBuffers b.
Proof. apply omap_app. Qed.

Lemma pushSample_messages now acc x :
  length (buffer acc.1) = bufferSize acc.1 →
  ∃ bufs,
    (pushSample now acc x).2 = acc.2 ++ map (λ b, ProcessAudio b now) bufs
    ∧ Forall (λ b, length b = bufferSize acc.1) bufs
    ∧ length (buffer (pushSample now acc x).1) = bufferSize acc.1.
Proof.
  intros Hlen. unfold pushSample, processBuffer. simpl.
  destruct (bufferSize acc.1 <=? S (bufferIndex acc.1))%nat; simpl.
  - destruct (isActive acc.1).
    + exists [<[bufferIndex acc.1 := x]> (buffer acc.1)].
      split_and!; [done | | by rewrite length_insert].
      constructor; [by rewrite length_insert | done].
    + exists []. split_and!; [done | done | by rewrite length_insert].
  - exists []. split_and!; [by rewrite app_nil_r | done | by rewrite length_insert].
Qed.

(** The loop over the samples posts 'processAudio' messages only, each
    with a buffer as long as the window. *)
Lemma fold_pushSample_messages now input : ∀ acc,
  length (buffer acc.1) = bufferSize acc.1 →
  ∃ bufs,
    (fold_left (pushSample now) input acc).2
      = acc.2 ++ map (λ b, ProcessAudio b now) bufs
    ∧ Forall (λ b, length b = bufferSize acc.1) bufs
    ∧ length (buffer (fold_left (pushSample now) input acc).1) = bufferSize acc.1.
Proof.
  induction input as [|x input IH]; intros acc Hlen; simpl.
  - exists []. by rewrite app_nil_r.
  - destruct (pushSample_detector now acc x) as (_ & _ & _ & _ & Hsz).
    destruct (pushSample_messages now acc x Hlen) as (b1 & Ho1 & Ha1 & Hl1).
    rewrite <- Hsz in Hl1.
    destruct (IH _ Hl1) as (bufs & Hout & Hall & Hl). rewrite Hsz in Hall, Hl.
    exists (b1 ++ bufs). split_and!; [| by apply Forall_app | done].
    by rewrite Hout, Ho1, map_app, (assoc_L (++)).
Qed.

(** What one call posts: the detector's signal for a call with samples,
    then 'processAudio' messages with buffers as long as the window. *)
Lemma process_messages q p :
  length (buffer p) = bufferSize p →
  ∃ bufs,
    (process q p).2
      = (if hasSamples q
         then (detect (match inputs q with Some i => audioLevel i | None => 0%float end) p).2
         else [])
        ++ map (λ b, ProcessAudio b (currentTime q)) bufs
    ∧ Forall (λ b, length b = bufferSize p) bufs
    ∧ length (buffer (process q p).1) = bufferSize p.
Proof.
  intros Hlen. unfold process, hasSamples.
  destruct (inputs q) as [[|x input]|]; try (by exists []).
  destruct (detect_config (audioLevel (x :: input)) p) as (_ & _ & Hsz & Hb & _).
  destruct (fold_pushSample_messages (currentTime q) (x :: input)
              (detect (audioLevel (x :: input)) p)) as (bufs & Ho & Ha & Hl).
  { by rewrite Hb, Hsz. }
  rewrite Hsz in Ha, Hl. by exists bufs.
Qed.

Lemma speechSignals_audio now bufs :
  speechSignals (map (λ b, ProcessAudio b now) bufs) = [].
Proof. by induction bufs. Qed.

Lemma audioBuffers_audio now bufs :
  audioBuffers (map (λ b, ProcessAudio b now) bufs) = bufs.
Proof. induction bufs as [|b bufs IH]; [done|]. simpl. f_equal. exact IH. Qed.

Lemma audioBuffers_detect level p : audioBuffers (detect level p).2 = [].
Proof.
  unfold detect. destruct (PrimFloat.ltb _ _); simpl.
  - by destruct (isActive p).
  - by destruct (isActive p && _).
Qed.

(** X3.  Every 'processAudio' message the processor ever posts carries a
    buffer of exactly 4096 samples, whatever the sizes of the blocks it is
    fed. *)
Theorem audio_messages_are_full_windows qs :
  Forall (λ b, length b = 4096%nat) (audioBuffers (run qs).2).
Proof.
  unfold run.
  assert (H0 : length (buffer constructor.1) = bufferSize constructor.1
               ∧ bufferSize constructor.1 = 4096%nat
               ∧ Forall (λ b, length b = 4096%nat) (audioBuffers constructor.2)).
  { split_and!; [exact (length_replicate 4096 0%float) | done | constructor]. }
  revert H0. generalize constructor.
  induction qs as [|q qs IH]; intros acc (Hlen & Hsz & Hall); simpl; [done|].
  apply IH. unfold feed. simpl.
  destruct (process_messages q acc.1 Hlen) as (bufs & Ho & Ha & Hl).
  destruct (process_config q acc.1) as (_ & _ & Hsz').
  split_and!; [by rewrite Hsz' | by rewrite Hsz' |].
  rewrite audioBuffers_app. apply Forall_app. split; [done|].
  rewrite Ho, audioBuffers_app, audioBuffers_audio.
  rewrite Hsz in Ha.
  destruct (hasSamples q); [by rewrite audioBuffers_detect|done].
Qed.

Lemma alternates_snoc l : ∀ next,
  alternates next l = true →
  alternates next (l ++ [negb (default (negb next) (last l))]) = true.
Proof.
  induction l as [|b l IH]; intros next; simpl.
  - intros _. rewrite negb_involutive. by destruct next.
  - intros [Hb Hl]%andb_true_iff. rewrite Hb. simpl.
    apply Bool.eqb_prop in Hb. subst b.
    specialize (IH (negb next) Hl). rewrite negb_involutive in IH.
    destruct l as [|b' l']; [done|].
    rewrite last_cons_cons.
    destruct (last (b' :: l')) as [b''|] eqn:Hlast; [exact IH|].
    by apply last_None in Hlast.
Qed.

(** The detector's signal tells what happened to the active flag. *)
Lemma detect_signal level p :
  (speechSignals (detect level p).2 = []
   ∧ isActive (detect level p).1 = isActive p)
  ∨ (speechSignals (detect level p).2 = [negb (isActive p)]
     ∧ isActive (detect level p).1 = negb (isActive p)).
Proof.
  unfold detect. destruct (PrimFloat.ltb _ _); simpl.
  - destruct (isActive p) eqn:Ha; simpl; rewrite ?Ha; auto.
  - destruct (isActive p) eqn:Ha; simpl; rewrite ?Ha; [|auto].
    destruct (_ <? _); simpl; rewrite ?Ha; auto.
Qed.

Lemma fold_pushSample_signals now input : ∀ acc,
  speechSignals (fold_left (pushSample now) input acc).2 = speechSignals acc.2.
Proof.
  induction input as [|x input IH]; intros acc; simpl; [done|].
  rewrite IH. unfold pushSample, processBuffer. simpl.
  destruct (_ <=? _)%nat; simpl; [|done].
  rewrite speechSignals_app. destruct (isActive acc.1); simpl; by rewrite app_nil_r.
Qed.

Lemma process_signal q p :
  (speechSignals (process q p).2 = []
   ∧ isActive (process q p).1 = isActive p)
  ∨ (speechSignals (process q p).2 = [negb (isActive p)]
     ∧ isActive (process q p).1 = negb (isActive p)).
Proof.
  unfold process.
  destruct (inputs q) as [[|x input]|]; try (left; done).
  destruct (fold_pushSample_detector (currentTime q) (x :: input)
              (detect (audioLevel (x :: input)) p)) as (-> & _).
  rewrite fold_pushSample_signals. apply detect_signal.
Qed.

(** X1.  Over any sequence of calls, the 'speech_start' and 'speech_end'
    messages the processor posts alternate, beginning with a
    'speech_start', and the detector is active exactly when the last of
    them is a 'speech_start'. *)
Theorem speech_signals_alternate qs :
  alternates true (speechSignals (run qs).2) = true
  ∧ isActive (run qs).1 = default false (last (speechSignals (run qs).2)).
Proof.
  unfold run.
  assert (H0 : alternates true (speechSignals constructor.2) = true
               ∧ isActive constructor.1
                 = default false (last (speechSignals constructor.2))) by done.
  revert H0. generalize constructor.
  induction qs as [|q qs IH]; intros acc [Halt Hact]; simpl; [done|].
  apply IH. unfold feed. simpl. rewrite speechSignals_app.
  destruct (process_signal q acc.1) as [[-> ->]|[-> ->]].
  - by rewrite app_nil_r.
  - rewrite Hact. split; [by apply (alternates_snoc _ true)|].
    by rewrite last_snoc.
Qed.

Lemma levelFits_detect level p :
  Forall (λ m, levelFits (silenceThreshold p) m = true) (detect level p).2.
Proof.
  unfold detect. destruct (PrimFloat.ltb _ _) eqn:Hl; simpl.
  - destruct (isActive p); simpl; repeat constructor. simpl. done.
  - destruct (isActive p && _); simpl; repeat constructor. simpl. by rewrite Hl.
Qed.

(** X2.  Every 'speech_start' message reports a level strictly above the
    threshold 0.01 and every 'speech_end' message a level that is not
    above it, over any sequence of calls. *)
Theorem speech_signal_levels qs :
  Forall (λ m, levelFits 0.01 m = true) (run qs).2.
Proof.
  unfold run.
  assert (H0 : silenceThreshold constructor.1 = 0.01%float
               ∧ length (buffer constructor.1) = bufferSize constructor.1
               ∧ Forall (λ m, levelFits 0.01 m = true) constructor.2).
  { split_and!; [done | exact (length_replicate 4096 0%float) | by repeat constructor]. }
  revert H0. generalize constructor.
  induction qs as [|q qs IH]; intros acc (Hthr & Hlen & Hall); simpl; [done|].
  apply IH. unfold feed. simpl.
  destruct (process_messages q acc.1 Hlen) as (bufs & Ho & _ & Hl).
  destruct (process_config q acc.1) as (Hthr' & _ & Hsz').
  split_and!; [by rewrite Hthr' | by rewrite Hsz' |].
  apply Forall_app. split; [done|]. rewrite Ho. apply Forall_app. split.
  - destruct (hasSamples q); [|constructor].
    rewrite <- Hthr. apply levelFits_detect.
  - apply Forall_map. by apply Forall_true.
Qed.

(** The quiet counter of a processor reached from the constructed one is
    a non-negative integer that a number holds exactly, and it has not
    passed the hangover limit while the detector is active. *)
Lemma process_counter q p :
  maxSilenceFrames p = 30 →
  0 ≤ silenceFrames p ≤ 2 ^ 53 ∧ (isActive p = true → silenceFrames p ≤ 30) →
  0 ≤ silenceFrames (process q p).1 ≤ 2 ^ 53
  ∧ (isActive (process q p).1 = true → silenceFrames (process q p).1 ≤ 30).
Proof.
  intros Hmax [Hrange Hact].
  destruct (isLoud (silenceThreshold p) q) eqn:Hl.
  { destruct (process_loud q p Hl) as [_ ->]. lia. }
  destruct (isQuiet (silenceThreshold p) q) eqn:Hq.
  - destruct (process_quiet q p Hq) as [-> ->]. rewrite Hmax.
    unfold incr. destruct (Z.ltb_spec (silenceFrames p) (2 ^ 53)).
    + split; [lia|]. intros [_ Hn]%andb_true_iff.
      apply negb_true_iff, Z.ltb_ge in Hn. lia.
    + split; [lia|]. intros [Ha _]%andb_true_iff. specialize (Hact Ha). lia.
  - by rewrite (process_no_input q p Hl Hq).
Qed.

(** X5.  In every state reached from the constructed processor the
    quiet-block counter is between 0 and 2^53, where counting is exact, and
    while the detector is active it is at most the hangover limit 30. *)
Theorem quiet_counter_bounded qs :
  0 ≤ silenceFrames (run qs).1 ≤ 2 ^ 53
  ∧ (isActive (run qs).1 = true → silenceFrames (run qs).1 ≤ 30).
Proof.
  unfold run.
  assert (H0 : maxSilenceFrames constructor.1 = 30
               ∧ 0 ≤ silenceFrames constructor.1 ≤ 2 ^ 53
               ∧ (isActive constructor.1 = true → silenceFrames constructor.1 ≤ 30)).
  { simpl. split_and!; try done; lia. }
  revert H0. generalize constructor.
  induction qs as [|q qs IH]; intros acc (Hmax & Hinv); simpl; [done|].
  apply IH. rewrite feed_fst.
  destruct (process_config q acc.1) as (_ & -> & _).
  split; [done|]. by apply process_counter.
Qed.

(** X6.  Calls that bring no samples (no input connected, or an empty
    channel) leave no trace: a sequence of calls ends in the same processor
    state and has posted the same messages as the sequence without them. *)
Theorem run_skips_calls_without_samples qs :
  run qs = run (List.filter hasSamples qs).
Proof.
  unfold run. generalize constructor.
  induction qs as [|q qs IH]; intros acc; simpl; [done|].
  destruct (hasSamples q) eqn:Hq; simpl; [apply IH|].
  rewrite <- IH. f_equal. unfold feed, process.
  unfold hasSamples in Hq.
  destruct (inputs q) as [[|x input]|]; try done;
    simpl; rewrite app_nil_r; by destruct acc.
Qed.

(** One call keeps the account of samples: with [w] windows completed and
    [w * size + index] samples taken so far, the call completes [k] more
    windows, takes the samples it brings and posts at most [k] buffers. *)
Lemma process_accounting q p :
  windowOk p →
  ∃ k : nat,
    windowOk (process q p).1
    ∧ (bufferIndex p + sampleCount q
       = k * bufferSize p + bufferIndex (process q p).1)%nat
    ∧ (length (audioBuffers (process q p).2) ≤ k)%nat.
Proof.
  intros Hok. unfold process, sampleCount.
  destruct (inputs q) as [[|x input]|]; try (exists 0%nat; simpl; split_and!; [done|lia|lia]).
  pose proof (detect_windowOk (audioLevel (x :: input)) p Hok) as Hd.
  destruct (detect_config (audioLevel (x :: input)) p) as (_ & _ & Hsz & Hb & Hi).
  destruct (fold_pushSample_window (currentTime q) (x :: input) _
              (detect (audioLevel (x :: input)) p).2 Hd)
    as (k & Hk & Hok' & _ & _ & _ & Hout).
  assert (Heta : ((detect (audioLevel (x :: input)) p).1,
                  (detect (audioLevel (x :: input)) p).2)
                 = detect (audioLevel (x :: input)) p) by (by destruct (detect _ p)).
  rewrite Heta in Hk, Hok', Hout.
  exists k. split_and!; [done| |].
  - rewrite length_app, length_take, Hb, Hi, Hsz in Hk.
    destruct Hok as [Hlen Hidx]. lia.
  - rewrite Hout, audioBuffers_app, audioBuffers_detect. simpl.
    destruct (isActive _); [|simpl; lia].
    rewrite <- (map_map (window _ _) (λ b, ProcessAudio b (currentTime q))).
    by rewrite audioBuffers_audio, length_map, length_seq.
Qed.

(** X4.  The processor accounts for every sample.  After any sequence of
    calls the write index is the number of samples fed so far modulo 4096,
    and the number of 'processAudio' messages posted is at most the number
    of full 4096-sample windows in what was fed. *)
Theorem sample_accounting qs :
  bufferIndex (run qs).1 = (totalSamples qs `mod` 4096)%nat
  ∧ (length (audioBuffers (run qs).2) ≤ totalSamples qs `div` 4096)%nat.
Proof.
  assert (Hgen : ∀ qs acc (t w : nat),
            windowOk acc.1 → bufferSize acc.1 = 4096%nat →
            t = (w * 4096 + bufferIndex acc.1)%nat →
            (length (audioBuffers acc.2) ≤ w)%nat →
            ∃ w' : nat,
              (t + totalSamples qs
               = w' * 4096 + bufferIndex (fold_left feed qs acc).1)%nat
              ∧ (bufferIndex (fold_left feed qs acc).1 < 4096)%nat
              ∧ (length (audioBuffers (fold_left feed qs acc).2) ≤ w')%nat).
  { clear qs. induction qs as [|q qs IH]; intros acc t w Hok Hsz Ht Hw; simpl.
    - exists w. destruct Hok as [_ Hidx]. rewrite Hsz in Hidx. split_and!; [lia|done|done].
    - destruct (process_accounting q acc.1 Hok) as (k & Hok' & Hk & Hbufs).
      destruct (process_config q acc.1) as (_ & _ & Hsz').
      rewrite Hsz in Hk.
      destruct (IH (feed acc q) (t + sampleCount q)%nat (w + k)%nat) as (w' & Ht' & Hi' & Hw').
      + by rewrite feed_fst.
      + by rewrite feed_fst, Hsz'.
      + rewrite feed_fst. lia.
      + unfold feed. simpl. rewrite audioBuffers_app, length_app. lia.
      + exists w'. split_and!; [lia|done|done]. }
  destruct (run_windowOk []) as [Hok Hsz].
  destruct (Hgen qs constructor 0%nat 0%nat Hok Hsz) as (w & Ht & Hi & Hw);
    [done | simpl; lia |].
  fold (run qs) in Ht, Hi, Hw. simpl in Ht.
  assert (Hq : (totalSamples qs `div` 4096)%nat = w).
  { symmetry. apply (Nat.div_unique _ _ _ (bufferIndex (run qs).1)); lia. }
  assert (Hm : (totalSamples qs `mod` 4096)%nat = bufferIndex (run qs).1).
  { symmetry. apply (Nat.mod_unique _ _ w); lia. }
  by rewrite Hq, Hm.
Qed.

(** The pass-through loop in closed form: the output channel holds the
    input as far as the channel reaches, and keeps what it had beyond the
    input's length. *)
Lemma copyChannel_upto (input output : Block) (k : nat) :
  (k ≤ length input)%nat →
  fold_left (λ out i, match input !! i with
                      | Some x => <[i := x]> out
                      | None => out
                      end) (seq 0 k) output
  = take (k `min` length output) input ++ drop k output.
Proof.
  unfold Block in *. induction k as [|k IH]; intros Hk.
  - simpl. by rewrite drop_0.
  - rewrite seq_S, fold_left_app, IH by lia. cbn [fold_left Nat.add].
    destruct (lookup_lt_is_Some_2 input k) as [x Hx]; [lia|]. rewrite Hx.
    destruct (decide (k < length output)%nat) as [Hlt|Hge].
    + rewrite Nat.min_l, Nat.min_l by lia.
      rewrite insert_app_r_alt by (rewrite length_take; lia).
      rewrite length_take, Nat.min_l, Nat.sub_diag by lia.
      destruct (lookup_lt_is_Some_2 output k Hlt) as [y Hy].
      rewrite (drop_S _ _ _ Hy). simpl.
      rewrite (take_S_r _ _ _ Hx), <- (assoc_L (++)). done.
    + rewrite Nat.min_r, Nat.min_r by lia.
      rewrite !drop_ge by lia.
      rewrite list_insert_ge; [done|].
      rewrite length_app, length_take. simpl. lia.
Qed.

(** X7.  The pass-through of a call that brings samples: every channel of
    the first output receives the input's samples (as many as the channel
    has room for, the rest of a longer channel is kept), and the other
    outputs are not written to.  A channel as long as the input ends as a
    copy of the input. *)
Theorem passThrough_copies_input q (input : Block) channels rest :
  inputs q = Some input →
  input ≠ [] →
  passThrough q (channels :: rest)
  = map (λ out, take (length out) input ++ drop (length input) out) channels :: rest
  ∧ (∀ i out, channels !! i = Some out → length out = length input →
       (passThrough q (channels :: rest)) !! 0%nat ≫= (.!! i) = Some input).
Proof.
  intros Hin Hne.
  assert (Hcopy : ∀ out, copyChannel input out
                         = take (length out) input ++ drop (length input) out).
  { intros out. unfold copyChannel. rewrite copyChannel_upto by done.
    destruct (decide (length input ≤ length out)%nat).
    - rewrite Nat.min_l by done. by rewrite !take_ge by lia.
    - by rewrite Nat.min_r by lia. }
  assert (Hpass : passThrough q (channels :: rest)
                  = map (λ out, take (length out) input ++ drop (length input) out)
                        channels :: rest).
  { unfold passThrough. rewrite Hin. destruct input as [|x input]; [done|].
    f_equal. destruct channels as [|c channels]; [done|].
    change (0 <? length (c :: channels))%nat with true. cbv iota.
    apply map_ext. intros out. apply Hcopy. }
  split; [done|].
  intros i out Hout Hlen. rewrite Hpass. unfold Block in *. simpl.
  match goal with
  | |- map ?f channels !! i = _ => change (map f channels) with (f <$> channels)
  end.
  rewrite list_lookup_fmap, Hout. simpl.
  by rewrite Hlen, take_ge, drop_ge, app_nil_r by lia.
Qed.

Lemma passThrough_copies_input_witness :
  passThrough (mkQuantum (Some [0.5; 0.25]%float) 0) [[[0; 0]; [1; 1; 1]]; [[2; 2]]]%float
  = map (λ out, take (length out) [0.5; 0.25]%float
                ++ drop (length [0.5; 0.25]%float) out)
        [[0; 0]; [1; 1; 1]]%float :: [[[2; 2]]]%float
  ∧ (∀ i out, [[0; 0]; [1; 1; 1]]%float !! i = Some out →
       length out = length [0.5; 0.25]%float →
       (passThrough (mkQuantum (Some [0.5; 0.25]%float) 0)
          [[[0; 0]; [1; 1; 1]]; [[2; 2]]]%float) !! 0%nat ≫= (.!! i)
       = Some [0.5; 0.25]%float).
Proof.
  apply (passThrough_copies_input (mkQuantum (Some [0.5; 0.25]%float) 0)
           [0.5; 0.25]%float [[0; 0]; [1; 1; 1]]%float [[[2; 2]]]%float);
    [reflexivity | discriminate].
Defined.

(** The pass-through of a call without samples writes nothing. *)
Example passThrough_without_samples outputs now :
  passThrough (mkQuantum None now) outputs = outputs
  ∧ passThrough (mkQuantum (Some []) now) outputs = outputs.
Proof. done. Qed.

End ProcessorRuns.

(* ===================================================================== *)
(** ** Further facts about the page                                       *)
(* ===================================================================== *)

Section PageFacts.
Import ClosedCaptioning.


Lemma alter_setHidden_twice a b (k : string) (d : Document) :
  alter (setHidden a) k (alter (setHidden b) k d) = alter (setHidden a) k d.
Proof.
  rewrite alter_alter_eq. apply alter_ext. by intros [cls h caps] _.
Qed.

(** X9.  Showing and hiding the container only switch the 'hidden' class of
    the element under the container's id: the controller, the captions
    element and its rendered lines stay as they are, a page without the
    container stays without it, and of two switches in a row the later one
    decides. *)
Theorem show_hide_container w :
  (this (showCaptionContainer w) = this w ∧ this (hideCaptionContainer w) = this w)
  ∧ (captionsElement (showCaptionContainer w) = captionsElement w
     ∧ captionsElement (hideCaptionContainer w) = captionsElement w)
  ∧ (hidden <$> document (showCaptionContainer w) !! containerId w
       = (λ _, false) <$> document w !! containerId w
     ∧ hidden <$> document (hideCaptionContainer w) !! containerId w
       = (λ _, true) <$> document w !! containerId w)
  ∧ (hideCaptionContainer (showCaptionContainer w) = hideCaptionContainer w
     ∧ showCaptionContainer (hideCaptionContainer w) = showCaptionContainer w).
Proof.
  unfold showCaptionContainer, hideCaptionContainer, captionsElement, containerId.
  simpl. rewrite !lookup_alter_eq, !alter_setHidden_twice.
  destruct (document w !! captionContainerId (options (this w))) as [[cls h caps]|];
    by split_and!.
Qed.




End PageFacts.

(* ===================================================================== *)
(** ** Further facts about the caption history                            *)
(* ===================================================================== *)

Section HistoryFacts.
Import ClosedCaptioning.

(** X12.  First in, first out.  When the history is full (as long as the
    maximum, which is at least 1) and a fragment that is not blank arrives
    from a speaker other than the tracked one, on a page with the captions
    element, the oldest entry is dropped, all others keep their order, and
    the new entry (the trimmed text under the fragment's speaker) is last;
    the history is as long as before. *)
Theorem full_history_evicts_oldest t who w :
  isBlank t = false →
  is_Some (captionsElement w) →
  currentSpeaker (this w) ≠ Some who →
  1 ≤ maxHistoryLength (options (this w)) →
  Z.of_nat (length (captionHistory (this w))) = maxHistoryLength (options (this w)) →
  captionHistory (this (updateCaption t who w))
  = drop 1 (captionHistory (this w)) ++ [mkCaption who (trim t)]
  ∧ length (captionHistory (this (updateCaption t who w)))
    = length (captionHistory (this w)).
Proof.
  intros Hb Hel Hs H1 Hfull.
  destruct (updateCaption_recorded t who w Hb Hel) as [-> _].
  rewrite recordCaption_evicts_oldest by done. split; [done|].
  rewrite length_app, length_drop. simpl. lia.
Qed.

Lemma full_history_evicts_oldest_witness :
  captionHistory (this (updateCaption (lit " three ") local fullWorld))
  = drop 1 (captionHistory (this fullWorld)) ++ [mkCaption local (trim (lit " three "))]
  ∧ length (captionHistory (this (updateCaption (lit " three ") local fullWorld)))
    = length (captionHistory (this fullWorld)).
Proof.
  apply (full_history_evicts_oldest (lit " three ") local fullWorld).
  - reflexivity.
  - vm_compute. eexists. reflexivity.
  - vm_compute. discriminate.
  - vm_compute. discriminate.
  - reflexivity.
Defined.

Lemma applyCalls_options l : ∀ w,
  options (this (applyCalls l w)) = options (this w).
Proof.
  unfold applyCalls. induction l as [|e l IH]; intros w; simpl; [done|].
  rewrite IH. destruct e as [t who|who]; simpl.
  - destruct (isBlank t) eqn:Ht; [unfold updateCaption; by rewrite Ht|].
    destruct (captionsElement w) as [els|] eqn:Hel.
    + destruct (updateCaption_recorded t who w Ht) as [-> _]; [eauto|].
      apply recordCaption_options.
    + by rewrite updateCaption_no_element.
  - unfold updateSpeakerStatus. by case_decide.
Qed.

(** X13.  As long as only [updateCaption] has been called on a constructed
    controller (maximum at least 1), the next fragment is placed by the
    speaker of the last entry: a fragment of another speaker becomes the
    new last entry (appended, or appended with the oldest entry dropped),
    and a fragment of the same speaker replaces the text of the last entry
    and leaves the other entries and the length alone. *)
Theorem fragments_follow_last_speaker host o (d : Document) l t who (e : Caption) :
  1 ≤ maxHistoryLength o →
  forallb isUpdateCaption l = true →
  isBlank t = false →
  is_Some (captionsElement (applyCalls l (constructor host o d))) →
  last (captionHistory (this (applyCalls l (constructor host o d)))) = Some e →
  (who ≠ speaker e →
     last (captionHistory
             (this (updateCaption t who (applyCalls l (constructor host o d)))))
       = Some (mkCaption who (trim t))
     ∧ (captionHistory
          (this (updateCaption t who (applyCalls l (constructor host o d))))
        = captionHistory (this (applyCalls l (constructor host o d)))
          ++ [mkCaption who (trim t)]
        ∨ captionHistory
            (this (updateCaption t who (applyCalls l (constructor host o d))))
          = drop 1 (captionHistory (this (applyCalls l (constructor host o d))))
            ++ [mkCaption who (trim t)]))
  ∧ (who = speaker e →
     captionHistory
       (this (updateCaption t who (applyCalls l (constructor host o d))))
     = take (length (captionHistory (this (applyCalls l (constructor host o d)))) - 1)
            (captionHistory (this (applyCalls l (constructor host o d))))
       ++ [mkCaption (speaker e) (trim t)]).
Proof.
  intros H1 Hl Hb Hel Hlast.
  pose proof (updateCaption_runs_keep_tracked host o d l H1 Hl) as Htr.
  pose proof (applyCalls_options l (constructor host o d)) as Ho.
  rewrite this_constructor in Ho. simpl in Ho.
  set (w := applyCalls l (constructor host o d)) in *.
  destruct (updateCaption_recorded t who w Hb Hel) as [-> _].
  unfold tracked in Htr. rewrite Hlast in Htr.
  apply recordCaption_tracked; [done | done | by rewrite Ho].
Qed.

Lemma fragments_follow_last_speaker_witness :
  (local ≠ speaker (mkCaption remote (lit "two")) →
     last (captionHistory (this (updateCaption (lit "three") local fullWorld)))
       = Some (mkCaption local (trim (lit "three")))
     ∧ (captionHistory (this (updateCaption (lit "three") local fullWorld))
        = captionHistory (this fullWorld) ++ [mkCaption local (trim (lit "three"))]
        ∨ captionHistory (this (updateCaption (lit "three") local fullWorld))
          = drop 1 (captionHistory (this fullWorld))
            ++ [mkCaption local (trim (lit "three"))]))
  ∧ (local = speaker (mkCaption remote (lit "two")) →
     captionHistory (this (updateCaption (lit "three") local fullWorld))
     = take (length (captionHistory (this fullWorld)) - 1)
            (captionHistory (this fullWorld))
       ++ [mkCaption (speaker (mkCaption remote (lit "two"))) (trim (lit "three"))]).
Proof.
  apply (fragments_follow_last_speaker willingHost
           (withMaxHistoryLength 2 defaultOptions) ∅
           [UpdateCaption (lit "one") local; UpdateCaption (lit "two") remote]
           (lit "three") local (mkCaption remote (lit "two"))).
  - vm_compute. discriminate.
  - reflexivity.
  - reflexivity.
  - vm_compute. eexists. reflexivity.
  - reflexivity.
Defined.

(** What [recordCaption] does field by field: the history changes, the
    tracked speaker is the fragment's speaker afterwards, nothing else
    moves. *)
Lemma recordCaption_fields t who c :
  isActive (recordCaption t who c) = isActive c
  ∧ audioContext (recordCaption t who c) = audioContext c
  ∧ captionProcessor (recordCaption t who c) = captionProcessor c
  ∧ speechRecognition (recordCaption t who c) = speechRecognition c
  ∧ remoteSpeechRecognition (recordCaption t who c) = remoteSpeechRecognition c
  ∧ localStream (recordCaption t who c) = localStream c
  ∧ remoteStream (recordCaption t who c) = remoteStream c
  ∧ audioWorkletSupported (recordCaption t who c) = audioWorkletSupported c
  ∧ remoteAudioElement (recordCaption t who c) = remoteAudioElement c
  ∧ currentSpeaker (recordCaption t who c) = Some who.
Proof.
  unfold recordCaption. case_decide as Hcur.
  - cbn [setCaptionHistory setCurrentSpeaker options captionHistory].
    by destruct (_ <? _).
  - assert (currentSpeaker c = Some who) as Hc.
    { destruct (decide (currentSpeaker c = Some who)); [done|]. by destruct Hcur. }
    by destruct (_ <? _)%nat.
Qed.

Lemma recordCaption_history t who c :
  captionHistory (recordCaption t who c)
  = if decide (currentSpeaker c ≠ Some who) then
      if maxHistoryLength (options c) <? Z.of_nat (length (captionHistory c) + 1)
      then drop 1 (captionHistory c ++ [mkCaption who (trim t)])
      else captionHistory c ++ [mkCaption who (trim t)]
    else
      if (0 <? length (captionHistory c))%nat
      then alter (setText (trim t)) (length (captionHistory c) - 1)%nat (captionHistory c)
      else captionHistory c ++ [mkCaption who (trim t)].
Proof.
  unfold recordCaption. case_decide as Hcur.
  - cbn [setCaptionHistory setCurrentSpeaker options captionHistory].
    rewrite length_app. cbn [length]. by destruct (_ <? _).
  - by destruct (_ <? _)%nat.
Qed.

Lemma Controller_ext (c1 c2 : Controller) :
  options c1 = options c2 → isActive c1 = isActive c2 →
  audioContext c1 = audioContext c2 → captionProcessor c1 = captionProcessor c2 →
  speechRecognition c1 = speechRecognition c2 →
  remoteSpeechRecognition c1 = remoteSpeechRecognition c2 →
  captionHistory c1 = captionHistory c2 → currentSpeaker c1 = currentSpeaker c2 →
  localStream c1 = localStream c2 → remoteStream c1 = remoteStream c2 →
  audioWorkletSupported c1 = audioWorkletSupported c2 →
  remoteAudioElement c1 = remoteAudioElement c2 →
  c1 = c2.
Proof. destruct c1, c2. simpl. by intros -> -> -> -> -> -> -> -> -> -> -> ->. Qed.

(** Two fragments of one speaker in a row, on the controller alone, leave
    what the second alone would leave. *)
Lemma recordCaption_twice t1 t2 who c :
  1 ≤ maxHistoryLength (options c) →
  recordCaption t2 who (recordCaption t1 who c) = recordCaption t2 who c.
Proof.
  intros H1.
  destruct (recordCaption_fields t1 who c)
    as (Ha1 & Hb1 & Hc1 & Hd1 & He1 & Hf1 & Hg1 & Hh1 & Hi1 & Hs1).
  destruct (recordCaption_fields t2 who c)
    as (Ha2 & Hb2 & Hc2 & Hd2 & He2 & Hf2 & Hg2 & Hh2 & Hi2 & Hs2).
  destruct (recordCaption_fields t2 who (recordCaption t1 who c))
    as (Ha3 & Hb3 & Hc3 & Hd3 & He3 & Hf3 & Hg3 & Hh3 & Hi3 & Hs3).
  apply Controller_ext; rewrite ?recordCaption_options; try congruence.
  rewrite (recordCaption_history t2 who (recordCaption t1 who c)).
  rewrite Hs1, decide_False by (intros Hn; by apply Hn).
  rewrite !recordCaption_history.
  set (h := captionHistory c). set (x1 := mkCaption who (trim t1)).
  set (x2 := mkCaption who (trim t2)).
  assert (Hlast : ∀ l : list Caption,
            alter (setText (trim t2)) (length (l ++ [x1]) - 1)%nat (l ++ [x1])
            = l ++ [x2]).
  { intros l. rewrite length_app. cbn [length].
    replace (length l + 1 - 1)%nat with (length l + 0)%nat by lia.
    by rewrite alter_app_r. }
  destruct (decide (currentSpeaker c ≠ Some who)) as [Hne|Heq].
  - destruct (Z.ltb_spec (maxHistoryLength (options c)) (Z.of_nat (length h + 1))).
    + destruct h as [|e0 h']; [cbn [length] in *; lia|].
      change (drop 1 ((e0 :: h') ++ [x1])) with (h' ++ [x1]).
      change (drop 1 ((e0 :: h') ++ [x2])) with (h' ++ [x2]).
      rewrite Hlast, length_app. cbn [length].
      by destruct (Nat.ltb_spec 0 (length h' + 1)); [|lia].
    + rewrite Hlast, length_app. cbn [length].
      by destruct (Nat.ltb_spec 0 (length h + 1)); [|lia].
  - destruct (Nat.ltb_spec 0 (length h)) as [Hpos|Hzero].
    + rewrite length_alter.
      destruct (Nat.ltb_spec 0 (length h)); [|lia].
      rewrite list_alter_alter_eq. apply list_alter_ext; [|done].
      by intros [sp txt] _.
    + destruct h; [done | cbn [length] in *; lia].
Qed.

Lemma alter_setCaptions_twice a b (k : string) (d : Document) :
  alter (setCaptions a) k (alter (setCaptions b) k d) = alter (setCaptions a) k d.
Proof.
  rewrite alter_alter_eq. apply alter_ext. by intros [cls h caps] _.
Qed.

(** X14.  Interim results are cumulative.  For a controller with a maximum
    of at least 1, two fragments of the same speaker in a row leave the
    controller and the page exactly as the second fragment alone would
    have, provided the second is not blank: the first is replaced, never
    kept beside it. *)
Theorem later_fragment_replaces_earlier t1 t2 who w :
  isBlank t2 = false →
  1 ≤ maxHistoryLength (options (this w)) →
  updateCaption t2 who (updateCaption t1 who w) = updateCaption t2 who w.
Proof.
  intros Hb2 H1.
  destruct (isBlank t1) eqn:Hb1.
  { unfold updateCaption at 2. by rewrite Hb1. }
  destruct (captionsElement w) as [els|] eqn:Hel;
    [|by rewrite (updateCaption_no_element t1 who w Hel),
                 (updateCaption_no_element t2 who w Hel)].
  unfold updateCaption. rewrite Hb1, Hb2, Hel.
  unfold renderCaptions, captionsElement, containerId in *. simpl.
  rewrite !recordCaption_options, Hel. simpl.
  rewrite !recordCaption_options.
  destruct (document w !! captionContainerId (options (this w))) as [c|] eqn:Hc;
    [|done].
  rewrite lookup_alter_eq, Hc. simpl.
  rewrite recordCaption_twice by done.
  by rewrite alter_setCaptions_twice.
Qed.

Lemma later_fragment_replaces_earlier_witness :
  updateCaption (lit "hi there") local (updateCaption (lit "hi") local fullWorld)
  = updateCaption (lit "hi there") local fullWorld.
Proof.
  apply (later_fragment_replaces_earlier (lit "hi") (lit "hi there") local fullWorld).
  - reflexivity.
  - vm_compute. discriminate.
Defined.

Lemma join_whitespace (ts : list jsstring) :
  forallb (forallb isWhiteSpace) ts = true →
  forallb isWhiteSpace (join ts) = true.
Proof.
  induction ts as [|t ts IH]; [done|].
  intros [Ht Hts]%andb_true_iff. specialize (IH Hts).
  destruct ts as [|t' ts']; [done|].
  change (join (t :: t' :: ts')) with (t ++ 32%N :: join (t' :: ts')).
  rewrite forallb_app, Ht. simpl. exact IH.
Qed.

(** X16.  A recognition event whose results are all blank (each transcript
    empty or white space only; in particular an event without results)
    changes nothing: joined by spaces they are still blank, and the update
    is dropped. *)
Theorem onresult_blank who (ts : list jsstring) w :
  forallb (forallb isWhiteSpace) ts = true →
  onresult who ts w = w.
Proof.
  intros Hts. unfold onresult, updateCaption.
  by rewrite (isBlank_whitespace _ (join_whitespace ts Hts)).
Qed.

Lemma onresult_blank_witness :
  onresult remote [lit " "; []; lit "  "] fullWorld = fullWorld.
Proof.
  apply (onresult_blank remote [lit " "; []; lit "  "] fullWorld). reflexivity.
Defined.

(** X17.  The worklet's messages only ever move the tracked speaker to
    remote.  However many messages are delivered, the caption history, the
    page, the host calls, the timers and the active flag are as before; the
    tracked speaker is remote if a 'speech_start' was among them and
    unchanged otherwise: 'speech_end' and the other messages do nothing. *)
Theorem deliver_messages msgs w :
  captionHistory (this (deliver msgs w)) = captionHistory (this w)
  ∧ isActive (this (deliver msgs w)) = isActive (this w)
  ∧ options (this (deliver msgs w)) = options (this w)
  ∧ document (deliver msgs w) = document w
  ∧ calls (deliver msgs w) = calls w
  ∧ timers (deliver msgs w) = timers w
  ∧ currentSpeaker (this (deliver msgs w))
    = if existsb isSpeechStart msgs then Some remote else currentSpeaker (this w).
Proof.
  unfold deliver. revert w.
  induction msgs as [|m msgs IH]; intros w; simpl; [done|].
  destruct (IH (onmessage m w)) as (-> & -> & -> & -> & -> & -> & ->).
  destruct m as [|level|level|buf ts]; simpl; try done.
  unfold updateSpeakerStatus. case_decide as Hcur; simpl.
  - split_and!; try done. by destruct (existsb _ _).
  - split_and!; try done. destruct (existsb _ _); [done|].
    destruct (decide (currentSpeaker (this w) = Some remote)); [done|].
    by destruct Hcur.
Qed.

End HistoryFacts.

(* ===================================================================== *)
(** ** Facts that hold whatever happens to a controller                   *)
(* ===================================================================== *)

Section EventFacts.
Import ClosedCaptioning.

(** The restart events leave the controller and the page alone. *)
Lemma handle_keeps host ev w :
  this (exec (handle host ev) w) = this w
  ∧ document (exec (handle host ev) w) = document w.
Proof.
  assert (Hrestart : ∀ who w',
            this (exec (restartRecognition host who) w') = this w'
            ∧ document (exec (restartRecognition host who) w') = document w').
  { intros who w'. unfold exec, restartRecognition, tryCatch, perform, mbind, M_bind,
      log, setTimeout, modify.
    destruct (isActive (this w') && recognition who (this w')); [|done].
    simpl. by destruct (throws host _ _). }
  assert (Hretry : ∀ who w',
            this (exec (retryStart host who) w') = this w'
            ∧ document (exec (retryStart host who) w') = document w').
  { intros who w'. unfold exec, retryStart, tryCatch, perform, log, modify.
    destruct (isActive (this w')); [|done].
    simpl. by destruct (throws host _ _). }
  destruct ev as [who|who|who|who error|i]; simpl.
  - apply Hrestart.
  - apply Hretry.
  - unfold exec, onend. destruct (isActive (this w)); [apply Hrestart|done].
  - destruct who; unfold exec; simpl.
    + unfold onerrorLocal, mbind, M_bind, log, modify. simpl.
      destruct (String.eqb error "no-speech"); [done|].
      apply (Hrestart local (setConsole _ w)).
    + unfold onerrorRemote, mbind, M_bind, log, modify. simpl.
      destruct (negb _ && negb _); [|done].
      apply (Hrestart remote (setConsole _ w)).
  - unfold exec, fireTimer. destruct (timers w !! i) as [[who delay]|]; [|done].
    apply (Hretry who (setTimers _ w)).
Qed.

(** [initialize] leaves the options, the history, the tracked speaker and
    the timers alone, and does to the page what showing the container
    does. *)
Lemma initialize_keeps host ls rs w :
  options (this (exec (initialize host ls rs) w)) = options (this w)
  ∧ captionHistory (this (exec (initialize host ls rs) w)) = captionHistory (this w)
  ∧ currentSpeaker (this (exec (initialize host ls rs) w)) = currentSpeaker (this w)
  ∧ document (exec (initialize host ls rs) w) = document (showCaptionContainer w)
  ∧ timers (exec (initialize host ls rs) w) = timers w
  ∧ localStream (this (exec (initialize host ls rs) w)) = ls
  ∧ remoteStream (this (exec (initialize host ls rs) w)) = rs.
Proof.
  unfold exec, initialize, initializeSpeechRecognition,
    initializeRemoteTranscription, setupAudioWorklet,
    mbind, M_bind, mret, M_ret, modifyThis, modify, tryCatch, perform, log, throw.
  destruct (hasSpeechRecognition host), rs as [r|], (audioWorkletSupported (this w)) eqn:Haw;
    simpl;
    repeat (first
      [ progress (rewrite Haw; simpl)
      | match goal with
        | |- context [throws ?h ?n ?c] => destruct (throws h n c) eqn:?; simpl
        end ]);
    by split_and!.
Qed.

(** [stop] leaves the options and the timers alone, empties the history,
    forgets the tracked speaker, and does to the page what hiding the
    container does. *)
Lemma stop_keeps host w :
  options (this (exec (stop host) w)) = options (this w)
  ∧ captionHistory (this (exec (stop host) w)) = []
  ∧ currentSpeaker (this (exec (stop host) w)) = None
  ∧ document (exec (stop host) w) = document (hideCaptionContainer w)
  ∧ timers (exec (stop host) w) = timers w.
Proof.
  unfold exec, stop, mbind, M_bind, modifyThis, modify, tryCatch, perform, log.
  simpl.
  repeat (match goal with
          | |- context [if ?b then _ else _] => destruct b eqn:?; simpl
          end); by split_and!.
Qed.

(** An update either changes nothing or records a fragment that is not
    blank. *)
Lemma updateCaption_cases t who w :
  updateCaption t who w = w
  ∨ (isBlank t = false ∧ this (updateCaption t who w) = recordCaption t who (this w)).
Proof.
  destruct (isBlank t) eqn:Ht.
  { left. unfold updateCaption. by rewrite Ht. }
  destruct (captionsElement w) as [els|] eqn:Hel.
  - right. split; [done|].
    destruct (updateCaption_recorded t who w Ht) as [-> _]; [eauto|done].
  - left. by apply updateCaption_no_element.
Qed.

Lemma updateCaption_document t who w k :
  k ≠ containerId w →
  document (updateCaption t who w) !! k = document w !! k.
Proof.
  intros Hk. unfold updateCaption. destruct (isBlank t); [done|].
  destruct (captionsElement w) as [els|] eqn:Hel; [|done].
  unfold renderCaptions, captionsElement, containerId in *. simpl.
  rewrite recordCaption_options, Hel. simpl.
  rewrite ?recordCaption_options. by rewrite lookup_alter_ne.
Qed.

(** What one event can do to the options, the history and the page: the
    options stay; the history stays, is emptied, or takes a fragment that
    is not blank; on the page only the element under the container's id
    can change. *)
Lemma react_effect host w e :
  options (this (react host w e)) = options (this w)
  ∧ (captionHistory (this (react host w e)) = captionHistory (this w)
     ∨ captionHistory (this (react host w e)) = []
     ∨ ∃ t who, isBlank t = false
                ∧ captionHistory (this (react host w e))
                  = captionHistory (recordCaption t who (this w)))
  ∧ (∀ k, k ≠ containerId w → document (react host w e) !! k = document w !! k).
Proof.
  assert (Hupd : ∀ t who,
    options (this (updateCaption t who w)) = options (this w)
    ∧ (captionHistory (this (updateCaption t who w)) = captionHistory (this w)
       ∨ captionHistory (this (updateCaption t who w)) = []
       ∨ ∃ t' who', isBlank t' = false
                    ∧ captionHistory (this (updateCaption t who w))
                      = captionHistory (recordCaption t' who' (this w)))
    ∧ (∀ k, k ≠ containerId w → document (updateCaption t who w) !! k = document w !! k)).
  { intros t who. split_and!.
    - destruct (updateCaption_cases t who w) as [->|[_ ->]]; [done|].
      apply recordCaption_options.
    - destruct (updateCaption_cases t who w) as [->|[Hb ->]]; [by left|].
      right. right. by exists t, who.
    - intros k Hk. by apply updateCaption_document. }
  assert (Hstatus : ∀ who,
    options (this (updateSpeakerStatus who w)) = options (this w)
    ∧ captionHistory (this (updateSpeakerStatus who w)) = captionHistory (this w)
    ∧ document (updateSpeakerStatus who w) = document w).
  { intros who. unfold updateSpeakerStatus. by case_decide. }
  destruct e as [l r| |t who|who|who ts|m|ev]; simpl.
  - destruct (initialize_keeps host l r w) as (-> & -> & _ & -> & _).
    split_and!; [done | by left |].
    intros k Hk. unfold showCaptionContainer. simpl. by rewrite lookup_alter_ne.
  - destruct (stop_keeps host w) as (-> & -> & _ & -> & _).
    split_and!; [done | right; by left |].
    intros k Hk. unfold hideCaptionContainer. simpl. by rewrite lookup_alter_ne.
  - apply Hupd.
  - destruct (Hstatus who) as (-> & -> & ->). split_and!; [done | by left | done].
  - apply Hupd.
  - destruct m; simpl; try (split_and!; [done | by left | done]).
    destruct (Hstatus remote) as (-> & -> & ->). split_and!; [done | by left | done].
  - destruct (handle_keeps host ev w) as [-> ->]. split_and!; [done | by left | done].
Qed.

(** X11.  The history stays within the maximum whatever happens.  For a
    controller constructed with a maximum of at least 1, after any sequence
    of events (initialisations, stops, updates, speaker status changes,
    results of either session, worklet messages, session errors and ends,
    restarts, timers) on any browser, the history holds at most
    [maxHistoryLength] entries. *)
Theorem history_within_maximum host o (d : Document) (es : list Event) :
  1 ≤ maxHistoryLength o →
  Z.of_nat (length (captionHistory (this (reactAll host es (constructor host o d)))))
  ≤ maxHistoryLength o.
Proof.
  intros H1. unfold reactAll.
  assert (H0 : options (this (constructor host o d)) = o
               ∧ Z.of_nat (length (captionHistory (this (constructor host o d))))
                 ≤ maxHistoryLength o).
  { rewrite this_constructor. simpl. split; [done | lia]. }
  revert H0. generalize (constructor host o d).
  induction es as [|e es IH]; intros w [Ho Hb]; simpl; [done|].
  apply IH. destruct (react_effect host w e) as (Hopt & Hhist & _).
  split; [by rewrite Hopt|].
  destruct Hhist as [->|[->|(t & who & _ & ->)]]; [done | simpl; lia |].
  subst o. by apply recordCaption_bounded.
Qed.

Lemma history_within_maximum_witness :
  Z.of_nat (length (captionHistory
                      (this (reactAll willingHost
                               [DoInitialize (Some 1%nat) (Some 2%nat);
                                OnResult local [lit "one"];
                                OnMessage (CaptionProcessor.SpeechStart 0.5);
                                OnResult remote [lit "two"];
                                OnResult local [lit "three"]]
                               (constructor willingHost
                                  (withMaxHistoryLength 1 defaultOptions) ∅)))))
  ≤ maxHistoryLength (withMaxHistoryLength 1 defaultOptions).
Proof.
  apply (history_within_maximum willingHost (withMaxHistoryLength 1 defaultOptions) ∅).
  vm_compute. discriminate.
Defined.

Lemma trimStart_idem s : trimStart (trimStart s) = trimStart s.
Proof.
  induction s as [|c s IH]; [done|]. simpl.
  destruct (isWhiteSpace c) eqn:Hc; [done|]. simpl. by rewrite Hc.
Qed.

Lemma trimStart_snoc l c :
  isWhiteSpace c = false → trimStart (l ++ [c]) = trimStart l ++ [c].
Proof.
  intros Hc. induction l as [|a l IH]; simpl; [by rewrite Hc|].
  by destruct (isWhiteSpace a).
Qed.

Lemma trimEnd_cons c s :
  isWhiteSpace c = false → trimEnd (c :: s) = c :: trimEnd s.
Proof.
  intros Hc. unfold trimEnd.
  by rewrite reverse_cons, trimStart_snoc, reverse_snoc.
Qed.

Lemma trimEnd_idem s : trimEnd (trimEnd s) = trimEnd s.
Proof. unfold trimEnd. by rewrite reverse_involutive, trimStart_idem. Qed.

Lemma trimStart_head s :
  trimStart s = [] ∨ ∃ c r, trimStart s = c :: r ∧ isWhiteSpace c = false.
Proof.
  induction s as [|c s IH]; simpl; [by left|].
  destruct (isWhiteSpace c) eqn:Hc; [done|]. right. by exists c, s.
Qed.

(** Trimming a trimmed text changes nothing. *)
Lemma trim_idem t : trim (trim t) = trim t.
Proof.
  unfold trim. destruct (trimStart_head t) as [->|(c & r & -> & Hc)]; [done|].
  rewrite (trimEnd_cons c r Hc). simpl. rewrite Hc.
  by rewrite (trimEnd_cons c _ Hc), trimEnd_idem.
Qed.

Lemma isBlank_false_trim t : isBlank t = false → trim t ≠ [].
Proof.
  unfold isBlank. destruct t as [|c t]; [done|]. by destruct (trim (c :: t)).
Qed.

(** X15.  No blank caption is ever stored.  After any sequence of events on
    a constructed controller, on any browser and page and with any options,
    every entry of the history has a text that is not empty and is already
    trimmed (no white space at either end). *)
Theorem history_has_no_blank_entry host o (d : Document) (es : list Event) :
  Forall (λ e, text e ≠ [] ∧ trim (text e) = text e)
         (captionHistory (this (reactAll host es (constructor host o d)))).
Proof.
  unfold reactAll.
  assert (H0 : Forall (λ e, text e ≠ [] ∧ trim (text e) = text e)
                      (captionHistory (this (constructor host o d)))).
  { rewrite this_constructor. constructor. }
  revert H0. generalize (constructor host o d).
  induction es as [|e es IH]; intros w Hall; simpl; [done|].
  apply IH. destruct (react_effect host w e) as (_ & Hhist & _).
  destruct Hhist as [->|[->|(t & who & Hb & ->)]]; [done | constructor |].
  assert (Hnew : text (mkCaption who (trim t)) ≠ []
                 ∧ trim (text (mkCaption who (trim t))) = text (mkCaption who (trim t))).
  { simpl. split; [by apply isBlank_false_trim | apply trim_idem]. }
  rewrite recordCaption_history.
  repeat case_match.
  - apply Forall_drop, Forall_app. split; [done | by constructor].
  - apply Forall_app. split; [done | by constructor].
  - apply Forall_alter; [done|]. intros e0 _ _. simpl.
    split; [by apply isBlank_false_trim | apply trim_idem].
  - apply Forall_app. split; [done | by constructor].
Qed.



End EventFacts.

(* ===================================================================== *)
(** ** Further facts about the sessions                                   *)
(* ===================================================================== *)

Section LifecycleFacts.
Import ClosedCaptioning.

(** X18.  What [stop] does and does not do, from every state and on every
    browser.  It returns normally; afterwards the controller is inactive,
    the history is empty, no speaker is tracked and the audio element is
    released; the container, when there is one, is hidden.  It leaves the
    two session objects in their fields, does not cancel pending timers,
    and does not clear the lines already rendered in the captions element.
    It makes at most three host calls (stopping either session, closing the
    audio context), none of them a start. *)
Theorem stop_releases host w :
  (stop host w).1 = Normal ()
  ∧ isActive (this (exec (stop host) w)) = false
  ∧ captionHistory (this (exec (stop host) w)) = []
  ∧ currentSpeaker (this (exec (stop host) w)) = None
  ∧ remoteAudioElement (this (exec (stop host) w)) = false
  ∧ hidden <$> document (exec (stop host) w) !! containerId w
    = (λ _, true) <$> document w !! containerId w
  ∧ (speechRecognition (this (exec (stop host) w)) = speechRecognition (this w)
     ∧ remoteSpeechRecognition (this (exec (stop host) w))
       = remoteSpeechRecognition (this w))
  ∧ timers (exec (stop host) w) = timers w
  ∧ captionsElement (exec (stop host) w) = captionsElement w
  ∧ ∃ new, calls (exec (stop host) w) = calls w ++ new
           ∧ (length new ≤ 3)%nat
           ∧ existsb isStartCall new = false.
Proof.
  destruct (stop_keeps host w) as (Ho & Hh & Hc & Hd & Ht).
  assert (Hrest :
    (stop host w).1 = Normal ()
    ∧ isActive (this (exec (stop host) w)) = false
    ∧ remoteAudioElement (this (exec (stop host) w)) = false
    ∧ speechRecognition (this (exec (stop host) w)) = speechRecognition (this w)
    ∧ remoteSpeechRecognition (this (exec (stop host) w))
      = remoteSpeechRecognition (this w)
    ∧ ∃ new, calls (exec (stop host) w) = calls w ++ new
             ∧ (length new ≤ 3)%nat
             ∧ existsb isStartCall new = false).
  { unfold exec, stop, mbind, M_bind, modifyThis, modify, tryCatch, perform, log.
    simpl.
    destruct (speechRecognition (this w)) eqn:Hs,
             (remoteSpeechRecognition (this w)) eqn:Hr,
             (audioContext (this w)) eqn:Ha; simpl;
      repeat (first
        [ progress (rewrite ?Hs, ?Hr, ?Ha; simpl)
        | match goal with
          | |- context [throws ?h ?n ?c] => destruct (throws h n c) eqn:?; simpl
          end ]);
      (split_and!; try done);
      eexists; (split; [rewrite <- ?(assoc_L (++)); try reflexivity;
                        symmetry; apply app_nil_r|]);
      simpl; split; (lia || done). }
  destruct Hrest as (H1 & H2 & H3 & H4 & H5 & H6).
  split_and!; try done.
  - rewrite Hd. unfold hideCaptionContainer. simpl.
    rewrite lookup_alter_eq.
    by destruct (document w !! containerId w).
  - unfold captionsElement, containerId. rewrite Ho, Hd.
    unfold hideCaptionContainer, containerId. simpl. rewrite lookup_alter_eq.
    by destruct (document w !! captionContainerId (options (this w))) as [[]|].
Qed.

(** X25.  [initialize] and the transcript.  Whether it succeeds or not, on
    every browser, [initialize] leaves the options, the caption history,
    the tracked speaker and the pending timers as they were, stores the two
    streams it was given, and shows the container when there is one (also
    when a later step fails). *)
Theorem initialize_frame host ls rs w :
  options (this (exec (initialize host ls rs) w)) = options (this w)
  ∧ captionHistory (this (exec (initialize host ls rs) w)) = captionHistory (this w)
  ∧ currentSpeaker (this (exec (initialize host ls rs) w)) = currentSpeaker (this w)
  ∧ timers (exec (initialize host ls rs) w) = timers w
  ∧ localStream (this (exec (initialize host ls rs) w)) = ls
  ∧ remoteStream (this (exec (initialize host ls rs) w)) = rs
  ∧ hidden <$> document (exec (initialize host ls rs) w) !! containerId w
    = (λ _, false) <$> document w !! containerId w
  ∧ captionsElement (exec (initialize host ls rs) w) = captionsElement w.
Proof.
  destruct (initialize_keeps host ls rs w) as (Ho & Hh & Hc & Hd & Ht & Hl & Hr).
  split_and!; try done.
  - rewrite Hd. unfold showCaptionContainer. simpl. rewrite lookup_alter_eq.
    by destruct (document w !! containerId w).
  - unfold captionsElement, containerId. rewrite Ho, Hd.
    unfold showCaptionContainer, containerId. simpl. rewrite lookup_alter_eq.
    by destruct (document w !! captionContainerId (options (this w))) as [[]|].
Qed.

(** X19.  Without a remote stream, [initialize] sets up the local session
    only: it makes at most two host calls, creating and starting the local
    session, and leaves the remote session, the audio context, the worklet
    node and the audio element as they were. *)
Theorem initialize_without_remote_stream host ls w :
  (∃ new, calls (exec (initialize host ls None) w) = calls w ++ new
          ∧ (length new ≤ 2)%nat
          ∧ Forall (λ c : HostCall * bool,
                      c.1 = RecognitionNew local ∨ c.1 = RecognitionStart local) new)
  ∧ remoteSpeechRecognition (this (exec (initialize host ls None) w))
    = remoteSpeechRecognition (this w)
  ∧ audioContext (this (exec (initialize host ls None) w)) = audioContext (this w)
  ∧ captionProcessor (this (exec (initialize host ls None) w))
    = captionProcessor (this w)
  ∧ remoteAudioElement (this (exec (initialize host ls None) w))
    = remoteAudioElement (this w).
Proof.
  unfold exec, initialize, initializeSpeechRecognition,
    mbind, M_bind, mret, M_ret, modifyThis, modify, tryCatch, perform, log.
  destruct (hasSpeechRecognition host); simpl;
    repeat (match goal with
            | |- context [throws ?h ?n ?c] => destruct (throws h n c) eqn:?; simpl
            end);
    (split_and!; try done);
    eexists; (split; [rewrite <- ?(assoc_L (++)); try reflexivity;
                      symmetry; apply app_nil_r|]);
    simpl; (split; [lia|]);
    repeat (apply Forall_cons_2; [simpl; auto|]); apply Forall_nil_2.
Qed.

(** X20.  On a browser without the speech recognition interface,
    [initialize] degrades quietly: it creates and starts no session, sets
    up no audio element and no worklet node, and the only host calls it
    can make are the four that build the audio graph for a remote stream;
    without a remote stream it makes no host call at all and settles with
    [true]. *)
Theorem initialize_without_speech_recognition host ls rs w :
  hasSpeechRecognition host = false →
  (∃ new, calls (exec (initialize host ls rs) w) = calls w ++ new
          ∧ existsb isStartCall new = false
          ∧ Forall (λ c : HostCall * bool,
                      c.1 = AudioContextNew ∨ c.1 = CreateMediaStreamSource
                      ∨ c.1 = CreateMediaStreamDestination ∨ c.1 = Connect) new
          ∧ (rs = None → new = []))
  ∧ (rs = None → (initialize host ls rs w).1 = Normal true)
  ∧ speechRecognition (this (exec (initialize host ls rs) w))
    = speechRecognition (this w)
  ∧ remoteSpeechRecognition (this (exec (initialize host ls rs) w))
    = remoteSpeechRecognition (this w)
  ∧ captionProcessor (this (exec (initialize host ls rs) w))
    = captionProcessor (this w)
  ∧ remoteAudioElement (this (exec (initialize host ls rs) w))
    = remoteAudioElement (this w).
Proof.
  intros Hno.
  unfold exec, initialize, initializeSpeechRecognition,
    initializeRemoteTranscription,
    mbind, M_bind, mret, M_ret, modifyThis, modify, tryCatch, perform, log, throw.
  rewrite Hno. destruct rs as [r|]; simpl;
    repeat (match goal with
            | |- context [throws ?h ?n ?c] => destruct (throws h n c) eqn:?; simpl
            end);
    (split_and!; try done);
    eexists; (split; [rewrite <- ?(assoc_L (++)); try reflexivity;
                      symmetry; apply app_nil_r|]);
    simpl; (split; [done|]); (split; [|done]);
    repeat (apply Forall_cons_2; [simpl; auto|]); apply Forall_nil_2.
Qed.

Lemma initialize_without_speech_recognition_witness :
  (∃ new, calls (exec (initialize deafHost (Some 1%nat) (Some 2%nat))
                   (constructor deafHost defaultOptions ∅))
          = calls (constructor deafHost defaultOptions ∅) ++ new
          ∧ existsb isStartCall new = false
          ∧ Forall (λ c : HostCall * bool,
                      c.1 = AudioContextNew ∨ c.1 = CreateMediaStreamSource
                      ∨ c.1 = CreateMediaStreamDestination ∨ c.1 = Connect) new
          ∧ (Some 2%nat = None → new = []))
  ∧ (Some 2%nat = None →
     (initialize deafHost (Some 1%nat) (Some 2%nat)
        (constructor deafHost defaultOptions ∅)).1 = Normal true)
  ∧ speechRecognition
      (this (exec (initialize deafHost (Some 1%nat) (Some 2%nat))
               (constructor deafHost defaultOptions ∅)))
    = speechRecognition (this (constructor deafHost defaultOptions ∅))
  ∧ remoteSpeechRecognition
      (this (exec (initialize deafHost (Some 1%nat) (Some 2%nat))
               (constructor deafHost defaultOptions ∅)))
    = remoteSpeechRecognition (this (constructor deafHost defaultOptions ∅))
  ∧ captionProcessor
      (this (exec (initialize deafHost (Some 1%nat) (Some 2%nat))
               (constructor deafHost defaultOptions ∅)))
    = captionProcessor (this (constructor deafHost defaultOptions ∅))
  ∧ remoteAudioElement
      (this (exec (initialize deafHost (Some 1%nat) (Some 2%nat))
               (constructor deafHost defaultOptions ∅)))
    = remoteAudioElement (this (constructor deafHost defaultOptions ∅)).
Proof.
  apply (initialize_without_speech_recognition deafHost (Some 1%nat) (Some 2%nat)
           (constructor deafHost defaultOptions ∅)).
  reflexivity.
Defined.

(** The calls and timers a restart leaves. *)
Lemma restart_attempts_once_aux host who w :
  calls (exec (restartRecognition host who) w)
    = calls w ++ (if isActive (this w) && recognition who (this w)
                  then [(RecognitionStart who,
                         throws host (length (calls w)) (RecognitionStart who))]
                  else [])
  ∧ timers (exec (restartRecognition host who) w)
    = timers w ++ (if isActive (this w) && recognition who (this w)
                      && throws host (length (calls w)) (RecognitionStart who)
                   then [RetryStart who 1000]
                   else []).
Proof.
  unfold exec, restartRecognition, tryCatch, perform, mbind, M_bind, log, setTimeout,
    modify.
  destruct (isActive (this w) && recognition who (this w)); simpl.
  - by destruct (throws host (length (calls w)) (RecognitionStart who)); simpl;
      rewrite ?app_nil_r.
  - by rewrite !app_nil_r.
Qed.

(** X21.  A restart makes one attempt.  From every state and on every
    browser, either restart method returns normally and leaves the
    controller and the page alone.  When the controller is active and the
    session exists it calls [start()] exactly once, and sets exactly one
    timer, the retry after 1000 ms, when that call throws; otherwise it
    makes no call and sets no timer. *)
Theorem restart_attempts_once host who w :
  (restartRecognition host who w).1 = Normal ()
  ∧ this (exec (restartRecognition host who) w) = this w
  ∧ document (exec (restartRecognition host who) w) = document w
  ∧ calls (exec (restartRecognition host who) w)
    = calls w ++ (if isActive (this w) && recognition who (this w)
                  then [(RecognitionStart who,
                         throws host (length (calls w)) (RecognitionStart who))]
                  else [])
  ∧ timers (exec (restartRecognition host who) w)
    = timers w ++ (if isActive (this w) && recognition who (this w)
                      && throws host (length (calls w)) (RecognitionStart who)
                   then [RetryStart who 1000]
                   else []).
Proof.
  unfold exec, restartRecognition, tryCatch, perform, mbind, M_bind, log, setTimeout,
    modify.
  destruct (isActive (this w) && recognition who (this w)); simpl.
  - by destruct (throws host (length (calls w)) (RecognitionStart who)); simpl;
      rewrite ?app_nil_r.
  - by rewrite !app_nil_r.
Qed.

(** X24.  A delayed retry is tried once.  When the browser runs a pending
    timer, the timer is taken off the list and no other timer is added;
    the callback makes exactly one [start()] call on its session if the
    controller is active and none if it is not; the controller and the
    page are not touched.  An index with no timer does nothing. *)
Theorem fireTimer_consumes host i w who delay :
  timers w !! i = Some (RetryStart who delay) →
  (fireTimer host i w).1 = Normal ()
  ∧ timers (exec (fireTimer host i) w) = delete i (timers w)
  ∧ calls (exec (fireTimer host i) w)
    = calls w ++ (if isActive (this w)
                  then [(RecognitionStart who,
                         throws host (length (calls w)) (RecognitionStart who))]
                  else [])
  ∧ this (exec (fireTimer host i) w) = this w
  ∧ document (exec (fireTimer host i) w) = document w
  ∧ (∀ j, timers w !! j = None → fireTimer host j w = (Normal (), w)).
Proof.
  intros Hi.
  unfold exec, fireTimer, retryStart, tryCatch, perform, log, modify.
  rewrite Hi. simpl.
  destruct (isActive (this w)); simpl.
  - destruct (throws host (length (calls w)) (RecognitionStart who)); simpl;
      (split_and!; try done); by intros j ->.
  - rewrite app_nil_r. split_and!; try done. by intros j ->.
Qed.

Lemma fireTimer_consumes_witness :
  (fireTimer (flakyHost 13) 0 stoppedWorld).1 = Normal ()
  ∧ timers (exec (fireTimer (flakyHost 13) 0) stoppedWorld)
    = delete 0%nat (timers stoppedWorld)
  ∧ calls (exec (fireTimer (flakyHost 13) 0) stoppedWorld)
    = calls stoppedWorld
      ++ (if isActive (this stoppedWorld)
          then [(RecognitionStart local,
                 throws (flakyHost 13) (length (calls stoppedWorld))
                        (RecognitionStart local))]
          else [])
  ∧ this (exec (fireTimer (flakyHost 13) 0) stoppedWorld) = this stoppedWorld
  ∧ document (exec (fireTimer (flakyHost 13) 0) stoppedWorld) = document stoppedWorld
  ∧ (∀ j, timers stoppedWorld !! j = None →
       fireTimer (flakyHost 13) j stoppedWorld = (Normal (), stoppedWorld)).
Proof.
  apply (fireTimer_consumes (flakyHost 13) 0%nat stoppedWorld local 1000).
  vm_compute. reflexivity.
Defined.

(** One restart event: at most one host call, a start, and at most one
    more timer. *)
Lemma handle_calls host ev w :
  ∃ new, calls (exec (handle host ev) w) = calls w ++ new
         ∧ (length new ≤ 1)%nat
         ∧ forallb isStartCall new = true
         ∧ (length (timers (exec (handle host ev) w)) ≤ length (timers w) + 1)%nat.
Proof.
  assert (Hrestart : ∀ who w',
    ∃ new, calls (exec (restartRecognition host who) w') = calls w' ++ new
           ∧ (length new ≤ 1)%nat
           ∧ forallb isStartCall new = true
           ∧ (length (timers (exec (restartRecognition host who) w'))
              ≤ length (timers w') + 1)%nat).
  { intros who w'.
    destruct (restart_attempts_once_aux host who w') as (Hc & Ht).
    rewrite Hc, Ht. eexists. split; [done|].
    destruct (isActive (this w') && recognition who (this w')); simpl;
      [|rewrite app_nil_r; split_and!; (done || lia)].
    destruct (throws host _ _); simpl; rewrite ?app_nil_r, ?length_app; simpl;
      split_and!; (done || lia). }
  assert (Hretry : ∀ who w',
    ∃ new, calls (exec (retryStart host who) w') = calls w' ++ new
           ∧ (length new ≤ 1)%nat
           ∧ forallb isStartCall new = true
           ∧ timers (exec (retryStart host who) w') = timers w').
  { intros who w'. unfold exec, retryStart, tryCatch, perform, log, modify.
    destruct (isActive (this w')); simpl.
    - exists [(RecognitionStart who,
               throws host (length (calls w')) (RecognitionStart who))].
      destruct (throws host _ _); simpl; split_and!; (done || (simpl; lia)).
    - exists []. simpl. rewrite app_nil_r. split_and!; (done || lia). }
  destruct ev as [who|who|who|who error|i]; simpl.
  - apply Hrestart.
  - destruct (Hretry who w) as (new & Hc & Hl & Hs & Ht).
    exists new. rewrite Ht. split_and!; (done || lia).
  - unfold exec, onend. destruct (isActive (this w)); [apply Hrestart|].
    exists []. simpl. rewrite app_nil_r. split_and!; (done || lia).
  - destruct who; unfold exec; simpl.
    + unfold onerrorLocal, mbind, M_bind, log, modify. simpl.
      destruct (String.eqb error "no-speech").
      * exists []. simpl. rewrite app_nil_r. split_and!; (done || lia).
      * apply (Hrestart local (setConsole _ w)).
    + unfold onerrorRemote, mbind, M_bind, log, modify. simpl.
      destruct (negb _ && negb _).
      * apply (Hrestart remote (setConsole _ w)).
      * exists []. simpl. rewrite app_nil_r. split_and!; (done || lia).
  - unfold exec, fireTimer. destruct (timers w !! i) as [[who delay]|] eqn:Hi.
    + destruct (Hretry who (setTimers (delete i (timers w)) w))
        as (new & Hc & Hl & Hs & Ht).
      unfold exec in Hc, Ht.
      exists new. rewrite Ht. simpl. rewrite length_delete by eauto.
      split_and!; (done || lia).
    + exists []. simpl. rewrite app_nil_r. split_and!; (done || lia).
Qed.

(** X22.  Retries are driven by events only.  Over any sequence of restart
    events (restart calls, delayed retries, session ends and errors, timers
    coming due), from every state and on every browser, the host calls made
    are all [start()] calls, at most one per event, and the number of
    pending timers grows by at most one per event; the controller itself
    is not changed. *)
Theorem one_start_attempt_per_event host evs w :
  (∃ new, calls (handleAll host evs w) = calls w ++ new
          ∧ (length new ≤ length evs)%nat
          ∧ forallb isStartCall new = true)
  ∧ (length (timers (handleAll host evs w)) ≤ length (timers w) + length evs)%nat
  ∧ this (handleAll host evs w) = this w.
Proof.
  unfold handleAll. revert w.
  induction evs as [|ev evs IH]; intros w; simpl.
  - split_and!; [|lia|done]. exists []. by rewrite app_nil_r.
  - destruct (IH (exec (handle host ev) w)) as ((new2 & Hc2 & Hl2 & Hs2) & Ht2 & Hthis2).
    destruct (handle_calls host ev w) as (new1 & Hc1 & Hl1 & Hs1 & Ht1).
    destruct (handle_keeps host ev w) as [Hthis1 _].
    split_and!; [|lia|congruence].
    exists (new1 ++ new2). rewrite Hc2, Hc1, (assoc_L (++)), length_app, forallb_app.
    split_and!; [done | lia | by rewrite Hs1, Hs2].
Qed.

(** X26.  [initialize] in the simplified second copy of the class.  It
    settles with a boolean on every browser as well, but the remote set-up
    keeps its failures to itself there: the value is [true] exactly when
    no call of the local set-up threw, whatever the calls for the remote
    session did, and the controller is then active.  It makes at most four
    host calls, creating and starting the two sessions. *)
Theorem simplified_initialize_settles host ls rs w :
  ∃ b new,
    (Simplified.initialize host ls rs w).1 = Normal b
    ∧ calls (exec (Simplified.initialize host ls rs) w) = calls w ++ new
    ∧ (length new ≤ 4)%nat
    ∧ (b = true
       ↔ Forall (λ c : HostCall * bool,
                   c.2 = false ∨ c.1 = RecognitionNew remote
                   ∨ c.1 = RecognitionStart remote) new)
    ∧ (b = true →
       isActive (this (exec (Simplified.initialize host ls rs) w)) = true).
Proof.
  unfold exec, Simplified.initialize, Simplified.initializeRemoteTranscription,
    initializeSpeechRecognition,
    mbind, M_bind, mret, M_ret, modifyThis, modify, tryCatch, perform, log, throw.
  destruct (hasSpeechRecognition host), rs as [r|]; simpl;
    repeat (match goal with
            | |- context [throws ?h ?n ?c] => destruct (throws h n c) eqn:?; simpl
            end);
    eexists _, _; (split; [reflexivity|]);
    (split; [rewrite <- ?(assoc_L (++)); try reflexivity; symmetry; apply app_nil_r|]);
    simpl; (split; [lia|]);
    (split; [split; [intros ?; try done;
                     repeat (apply Forall_cons_2; [simpl; auto|]); apply Forall_nil_2
                    | intros HF; try done; exfalso;
                      repeat match goal with
                             | H : Forall _ (_ :: _) |- _ =>
                                 apply Forall_cons_1 in H as [? H]
                             end;
                      simpl in *; intuition congruence]
            | intros ?; done]).
Qed.

End LifecycleFacts.
